(** * strcursor: a rune cursor over an io.Reader

    Shallow embedding of [rune.go] (package [strcursor]) and the
    properties of its public operations: [Cur], [Peek], [PeekN],
    [Advance], [HasPrefix], [Consume], [Done], [LineNumber], [Column].

    Conventions of the embedding.
    - Go's [int] and [rune] are read as mathematical integers ([Z]): the
      statements below are about runs in which no counter of the cursor
      ([nread], [lineno], [column], [rabuflen]) leaves the range of [int].
    - A [[]byte] and a Go [string] are [list byte].
    - The singly linked read-ahead list ([*runebuf]) is a [list runebuf];
      the [nil] pointer is the empty list.  Nodes are only ever linked by
      the call of [decodeIntoRuneBuffer] that allocated them, so no two
      lists share a node that is later mutated.
    - A Go panic (nil dereference, slice bounds) is an explicit outcome.
    - The source [c.in] is a state with a [Read] step that keeps the
      contract of [io.Reader] and writes exactly the bytes it reports. *)

From Stdlib Require Import ZArith List Lia Bool ZifyBool.
From Stdlib.Strings Require Import Byte.
Import ListNotations.

Set Implicit Arguments.
Open Scope Z_scope.

(** ** Outcomes of a call *)

Inductive panic : Type :=
| NilDereference
| SliceBounds.

(** [OutOfFuel] is the outcome of a loop of the model that was given too
    few iterations; the lemmas [decodeIntoRuneBuffer_total] and
    [fillRuneBuffer_total] show that no operation of the cursor ever
    produces it. *)
Inductive result (A : Type) : Type :=
| Ok (a : A)
| Panic (p : panic)
| OutOfFuel.

Arguments Panic {A} p.
Arguments OutOfFuel {A}.

Definition bind {A B : Type} (m : result A) (k : A -> result B) : result B :=
  match m with
  | Ok a => k a
  | Panic p => Panic p
  | OutOfFuel => OutOfFuel
  end.

Notation "x <- m ;; k" := (bind m (fun x => k))
  (at level 61, m at next level, right associativity).
Notation "' pat <- m ;; k" := (bind m (fun x => match x with pat => k end))
  (at level 61, pat pattern, m at next level, right associativity).

(** Go's [error] values that the cursor sees or makes. *)
Inductive error : Type :=
| io_EOF
| io_Err
| FailedToDecode        (* "failed to decode" *)
| FailedToFill          (* "failed to fill read buffer" *)
| FailedToPop           (* "failed to pop enough runes" *)
| Unrecoverable.        (* "unrecoverable error" *)

Definition isErr (e : option error) : bool :=
  match e with Some _ => true | None => false end.

(** ** unicode/utf8

    The decoder of Go's standard library, which [rune.go] calls; it is
    written after [utf8.DecodeRune] of the Go distribution (table [first],
    [acceptRanges], the masks). *)
Module utf8.

Definition RuneError : Z := 0xFFFD.

Definition b2z (b : byte) : Z := Z.of_N (Byte.to_N b).

Definition maskx : Z := 0x3F.
Definition mask2 : Z := 0x1F.
Definition mask3 : Z := 0x0F.
Definition mask4 : Z := 0x07.
Definition locb : Z := 0x80.
Definition hicb : Z := 0xBF.

Definition xx : Z := 0xF1.  (* invalid: size 1 *)
Definition as_ : Z := 0xF0. (* ASCII: size 1 *)
Definition s1 : Z := 0x02.  (* accept 0, size 2 *)
Definition s2 : Z := 0x13.  (* accept 1, size 3 *)
Definition s3 : Z := 0x03.  (* accept 0, size 3 *)
Definition s4 : Z := 0x23.  (* accept 2, size 3 *)
Definition s5 : Z := 0x34.  (* accept 3, size 4 *)
Definition s6 : Z := 0x04.  (* accept 0, size 4 *)
Definition s7 : Z := 0x44.  (* accept 4, size 4 *)

(** The table [first], by ranges of the leading byte. *)
Definition first (p0 : Z) : Z :=
  if p0 <? 0x80 then as_
  else if p0 <? 0xC2 then xx
  else if p0 <? 0xE0 then s1
  else if p0 =? 0xE0 then s2
  else if p0 <? 0xED then s3
  else if p0 =? 0xED then s4
  else if p0 <? 0xF0 then s3
  else if p0 =? 0xF0 then s5
  else if p0 <? 0xF4 then s6
  else if p0 =? 0xF4 then s7
  else xx.

Definition acceptRanges (i : Z) : Z * Z :=
  if i =? 0 then (locb, hicb)
  else if i =? 1 then (0xA0, hicb)
  else if i =? 2 then (locb, 0x9F)
  else if i =? 3 then (0x90, hicb)
  else if i =? 4 then (locb, 0x8F)
  else (0, 0).

Definition DecodeRune (p : list byte) : Z * Z :=
  match p with
  | [] => (RuneError, 0)
  | c0 :: p1 =>
    let p0 := b2z c0 in
    let x := first p0 in
    if x >=? as_ then
      (* the mask of the source is all ones exactly when x = xx *)
      (if x =? xx then RuneError else p0, 1)
    else
      let sz := Z.land x 7 in
      let accept := acceptRanges (Z.shiftr x 4) in
      if Z.of_nat (length p) <? sz then (RuneError, 1)
      else
        match p1 with
        | [] => (RuneError, 1)
        | c1 :: p2 =>
          let b1 := b2z c1 in
          if (b1 <? fst accept) || (snd accept <? b1) then (RuneError, 1)
          else if sz <=? 2 then
            (Z.lor (Z.shiftl (Z.land p0 mask2) 6) (Z.land b1 maskx), 2)
          else
            match p2 with
            | [] => (RuneError, 1)
            | c2 :: p3 =>
              let b2 := b2z c2 in
              if (b2 <? locb) || (hicb <? b2) then (RuneError, 1)
              else if sz <=? 3 then
                (Z.lor (Z.lor (Z.shiftl (Z.land p0 mask3) 12)
                              (Z.shiftl (Z.land b1 maskx) 6))
                       (Z.land b2 maskx), 3)
              else
                match p3 with
                | [] => (RuneError, 1)
                | c3 :: _ =>
                  let b3 := b2z c3 in
                  if (b3 <? locb) || (hicb <? b3) then (RuneError, 1)
                  else
                    (Z.lor (Z.lor (Z.lor (Z.shiftl (Z.land p0 mask4) 18)
                                         (Z.shiftl (Z.land b1 maskx) 12))
                                  (Z.shiftl (Z.land b2 maskx) 6))
                           (Z.land b3 maskx), 4)
                end
            end
        end
  end.

Definition DecodeRuneInString (s : list byte) : Z * Z := DecodeRune s.

(** Every step of the count takes one rune off the front, an invalid or
    truncated encoding counting as one rune of width 1. *)
Fixpoint countFrom (fuel : nat) (s : list byte) : Z :=
  match fuel, s with
  | _, [] => 0
  | O, _ => 0
  | S fuel', _ =>
    let w := snd (DecodeRune s) in
    1 + countFrom fuel' (skipn (Z.to_nat w) s)
  end.

Definition RuneCountInString (s : list byte) : Z := countFrom (length s) s.

(** [[]rune(s)]: the runes of a string, as a [range] loop yields them. *)
Fixpoint runesFrom (fuel : nat) (s : list byte) : list Z :=
  match fuel, s with
  | _, [] => []
  | O, _ => []
  | S fuel', _ =>
    let rw := DecodeRune s in
    fst rw :: runesFrom fuel' (skipn (Z.to_nat (snd rw)) s)
  end.

Definition runes (s : list byte) : list Z := runesFrom (length s) s.

End utf8.

(** ** io.Reader

    A reader is a state with a [Read] step: asked for at most [m] bytes
    (the length of the slice it is handed) it gives the bytes it wrote at
    the front of the slice, its error and its next state.  [Read_len] is
    the contract of [io.Reader]: [0 <= n <= len(p)]. *)
Class Reader (R : Type) : Type := {
  Read : R -> nat -> list byte * option error * R;
  Read_len : forall r m, (length (fst (fst (Read r m))) <= m)%nat
}.

(** [strings.Reader] / [bytes.Reader]: the bytes left to deliver. *)
Definition bytesRead (s : list byte) (m : nat) : list byte * option error * list byte :=
  match s with
  | [] => ([], Some io_EOF, [])
  | _ => (firstn m s, None, skipn m s)
  end.

#[export] Instance bytesReader : Reader (list byte).
Proof.
  refine {| Read := bytesRead |}.
  intros [|b s] m; simpl; [lia|].
  destruct m; simpl; [lia|]. pose proof (firstn_le_length m s). lia.
Defined.

(** A source that hands out its input in given chunks, one chunk per
    [Read] (a network connection, a pipe, [iotest]-style readers); a chunk
    larger than the slice is cut and its rest stays first in line. *)
Definition chunkRead (cs : list (list byte)) (m : nat)
  : list byte * option error * list (list byte) :=
  match cs with
  | [] => ([], Some io_EOF, [])
  | ch :: rest =>
    if (length ch <=? m)%nat then (ch, None, rest)
    else (firstn m ch, None, skipn m ch :: rest)
  end.

#[export] Instance chunkReader : Reader (list (list byte)).
Proof.
  refine {| Read := chunkRead |}.
  intros [|ch cs] m; simpl; [lia|].
  destruct (Nat.leb_spec (length ch) m); simpl; [lia|].
  rewrite length_firstn. lia.
Defined.

(** ** The cursor *)

Record runebuf : Type := mkRunebuf {
  val : Z;
  width : Z
}.

Section Cursor.

Context {R : Type} `{Reader R}.

Record RuneCursor : Type := mkRuneCursor {
  buf : list byte;       (* scratch buffer, read in from the io.Reader *)
  buflen : Z;            (* size of scratch buffer *)
  bufpos : Z;            (* amount consumed within the scratch buffer *)
  column : Z;            (* column number *)
  in_ : R;               (* input source *)
  lineno : Z;            (* line number *)
  nread : Z;             (* number of bytes consumed so far *)
  rabuf : list runebuf;  (* read-ahead buffer *)
  rabuflen : Z           (* number of runes in read-ahead buffer *)
}.

Definition set_buf (v : list byte) (c : RuneCursor) : RuneCursor :=
  mkRuneCursor v (buflen c) (bufpos c) (column c) (in_ c) (lineno c)
               (nread c) (rabuf c) (rabuflen c).
Definition set_buflen (v : Z) (c : RuneCursor) : RuneCursor :=
  mkRuneCursor (buf c) v (bufpos c) (column c) (in_ c) (lineno c)
               (nread c) (rabuf c) (rabuflen c).
Definition set_bufpos (v : Z) (c : RuneCursor) : RuneCursor :=
  mkRuneCursor (buf c) (buflen c) v (column c) (in_ c) (lineno c)
               (nread c) (rabuf c) (rabuflen c).
Definition set_column (v : Z) (c : RuneCursor) : RuneCursor :=
  mkRuneCursor (buf c) (buflen c) (bufpos c) v (in_ c) (lineno c)
               (nread c) (rabuf c) (rabuflen c).
Definition set_in (v : R) (c : RuneCursor) : RuneCursor :=
  mkRuneCursor (buf c) (buflen c) (bufpos c) (column c) v (lineno c)
               (nread c) (rabuf c) (rabuflen c).
Definition set_lineno (v : Z) (c : RuneCursor) : RuneCursor :=
  mkRuneCursor (buf c) (buflen c) (bufpos c) (column c) (in_ c) v
               (nread c) (rabuf c) (rabuflen c).
Definition set_nread (v : Z) (c : RuneCursor) : RuneCursor :=
  mkRuneCursor (buf c) (buflen c) (bufpos c) (column c) (in_ c) (lineno c)
               v (rabuf c) (rabuflen c).
Definition set_rabuf (v : list runebuf) (c : RuneCursor) : RuneCursor :=
  mkRuneCursor (buf c) (buflen c) (bufpos c) (column c) (in_ c) (lineno c)
               (nread c) v (rabuflen c).
Definition set_rabuflen (v : Z) (c : RuneCursor) : RuneCursor :=
  mkRuneCursor (buf c) (buflen c) (bufpos c) (column c) (in_ c) (lineno c)
               (nread c) (rabuf c) v.

Definition len {A : Type} (l : list A) : Z := Z.of_nat (length l).

(** [s[lo:]] of a slice whose length is its capacity. *)
Definition sliceFrom (s : list byte) (lo : Z) : result (list byte) :=
  if (0 <=? lo) && (lo <=? len s) then Ok (skipn (Z.to_nat lo) s)
  else Panic SliceBounds.

(** [copy(dst, src)]: as many bytes as both slices hold overwrite the
    front of [dst], the rest of [dst] stays. *)
Definition copy (dst src : list byte) : list byte :=
  firstn (length dst) src ++ skipn (length src) dst.

(** [NewRuneCursor(in, nn...)]. *)
Definition NewRuneCursor (inp : R) (nn : list Z) : RuneCursor :=
  let n := match nn with [] => 0 | n0 :: _ => n0 end in
  let n := if n <=? 0 then 40 else n in
  {| buf := repeat x00 (Z.to_nat n);
     buflen := n;
     bufpos := n;
     column := 1;
     in_ := inp;
     lineno := 1;
     nread := 0;
     rabuf := [];
     rabuflen := 0 |}.

(** The loop of [decodeIntoRuneBuffer]; [last] tells whether the local
    [last] pointer is non-nil, that is, whether this call has already
    allocated a node.  The first node of a call is stored in [c.rabuf],
    every later one behind the node before it. *)
Fixpoint decodeLoop (fuel : nat) (last : bool) (c : RuneCursor)
  : result (option error * RuneCursor) :=
  if bufpos c <? buflen c then
    match fuel with
    | O => OutOfFuel
    | S fuel' =>
      p <- sliceFrom (buf c) (bufpos c) ;;
      let rw := utf8.DecodeRune p in
      if fst rw =? utf8.RuneError then Ok (Some FailedToDecode, c)
      else
        let cur := {| val := fst rw; width := snd rw |} in
        let c1 := set_rabuflen (rabuflen c + 1)
                    (set_bufpos (bufpos c + snd rw) c) in
        let c2 := set_rabuf (if last then rabuf c1 ++ [cur] else [cur]) c1 in
        decodeLoop fuel' true c2
    end
  else Ok (None, c).

Definition decodeIntoRuneBuffer (c : RuneCursor)
  : result (option error * RuneCursor) :=
  decodeLoop (Z.to_nat (buflen c - bufpos c)) false c.

(** One [c.in.Read(c.buf[c.bufpos:])]: the bytes read land in [c.buf]
    from [bufpos] on. *)
Definition readInto (c : RuneCursor) : result (Z * option error * RuneCursor) :=
  p <- sliceFrom (buf c) (bufpos c) ;;
  let '(data, err, r') := Read (in_ c) (length p) in
  let b := firstn (Z.to_nat (bufpos c)) (buf c) ++ copy p data in
  Ok (len data, err, set_in r' (set_buf b c)).

(** The [for] loop of [fillRuneBuffer]. *)
Fixpoint fillLoop (fuel : nat) (n prevrabuflen : Z) (c : RuneCursor)
  : result (option error * RuneCursor) :=
  match fuel with
  | O => OutOfFuel
  | S fuel' =>
    '(_, c) <- decodeIntoRuneBuffer c ;;
    if rabuflen c >=? n then Ok (None, c)
    else
      c <- (if bufpos c <? buflen c
            then src <- sliceFrom (buf c) (bufpos c) ;;
                 Ok (set_buf (copy (buf c) src) c)
            else Ok c) ;;
      let c := if bufpos c >? buflen c then set_bufpos 0 c
               else set_bufpos (buflen c - bufpos c) c in
      '(n', err, c) <- readInto c ;;
      if (n' =? 0) && isErr err then
        Ok (err, set_buflen 0 (set_buf [] c))
      else
        let c := set_buflen n' c in
        '(_, c) <- decodeIntoRuneBuffer c ;;
        if prevrabuflen =? rabuflen c then
          Ok (Some FailedToFill, set_buflen 0 (set_buf [] c))
        else fillLoop fuel' n (rabuflen c) c
  end.

Definition fillRuneBuffer (n : Z) (c : RuneCursor)
  : result (option error * RuneCursor) :=
  if rabuflen c >=? n then Ok (None, c)
  else fillLoop (S (Z.to_nat (n - rabuflen c))) n (rabuflen c) c.

(** [Done]. *)
Definition Done (c : RuneCursor) : result (bool * RuneCursor) :=
  '(err, c) <- fillRuneBuffer 1 c ;;
  Ok (isErr err, c).

(** The position rule of one consumed rune. *)
Definition consumeNode (h : runebuf) (c : RuneCursor) : RuneCursor :=
  let c := set_nread (nread c + width h) c in
  let c := if val h =? 10
           then set_column 1 (set_lineno (lineno c + 1) c)
           else set_column (column c + 1) c in
  set_rabuflen (rabuflen c - 1) c.

(** The loop of [Advance]: [head] is the local pointer. *)
Fixpoint advanceLoop (k : nat) (head : list runebuf) (c : RuneCursor)
  : option error * RuneCursor :=
  match k with
  | O => (None, set_rabuf head c)
  | S k' =>
    match head with
    | [] => (Some FailedToPop, c)
    | h :: t => advanceLoop k' t (consumeNode h c)
    end
  end.

Definition Advance (n : Z) (c : RuneCursor) : option error * RuneCursor :=
  advanceLoop (Z.to_nat n) (rabuf c) c.

(** [Cur]. *)
Definition Cur (c : RuneCursor) : result (Z * RuneCursor) :=
  '(err, c) <- fillRuneBuffer 1 c ;;
  if isErr err then Ok (utf8.RuneError, c)
  else
    let head := rabuf c in
    let c := snd (Advance 1 c) in
    match head with
    | [] => Panic NilDereference
    | h :: _ => Ok (val h, c)
    end.

(** The pointer walk of [PeekN]: [steps] times [cur = cur.next], then
    [cur.val]. *)
Fixpoint peekWalk (steps : nat) (cur : list runebuf) : result Z :=
  match steps, cur with
  | _, [] => Panic NilDereference
  | O, h :: _ => Ok (val h)
  | S k, _ :: t => peekWalk k t
  end.

Definition PeekN (n : Z) (c : RuneCursor) : result (Z * RuneCursor) :=
  '(err, c) <- fillRuneBuffer n c ;;
  if isErr err then Ok (utf8.RuneError, c)
  else
    r <- peekWalk (Z.to_nat (n - 1)) (rabuf c) ;;
    Ok (r, c).

Definition Peek (c : RuneCursor) : result (Z * RuneCursor) := PeekN 1 c.

(** The matching walk of [hasPrefix], after the fill. *)
Fixpoint prefixWalk (cur : list runebuf) (s : list byte) (nl col : Z)
         (consume : bool) (c : RuneCursor) : bool * RuneCursor :=
  match cur with
  | [] => (false, c)
  | h :: next =>
    let rw := utf8.DecodeRuneInString s in
    if fst rw =? utf8.RuneError then (false, c)
    else
      let s := skipn (Z.to_nat (snd rw)) s in
      if negb (val h =? fst rw) then (false, c)
      else
        let nl' := if fst rw =? 10 then nl + 1 else nl in
        let col' := if fst rw =? 10 then 1 else col + 1 in
        if len s =? 0 then
          (true,
           if consume
           then set_lineno (lineno c + nl') (set_column col' (set_rabuf next c))
           else c)
        else prefixWalk next s nl' col' consume c
  end.

Definition hasPrefix (s : list byte) (n : Z) (consume : bool) (c : RuneCursor)
  : result (bool * RuneCursor) :=
  '(err, c) <- fillRuneBuffer n c ;;
  if isErr err then Ok (false, c)
  else Ok (prefixWalk (rabuf c) s 0 (column c) consume c).

Definition HasPrefix (s : list byte) (c : RuneCursor) : result (bool * RuneCursor) :=
  hasPrefix s (utf8.RuneCountInString s) false c.

Definition Consume (s : list byte) (c : RuneCursor) : result (bool * RuneCursor) :=
  hasPrefix s (utf8.RuneCountInString s) true c.

Definition LineNumber (c : RuneCursor) : Z := lineno c.

Definition Column (c : RuneCursor) : Z := column c.

(** *** Sequences of calls *)

(** The public operations, as a caller issues them. *)
Inductive op : Type :=
| OpCur
| OpPeek
| OpPeekN (n : Z)
| OpAdvance (n : Z)
| OpHasPrefix (s : list byte)
| OpConsume (s : list byte)
| OpDone.

Definition exec (o : op) (c : RuneCursor) : result RuneCursor :=
  match o with
  | OpCur => '(_, c) <- Cur c ;; Ok c
  | OpPeek => '(_, c) <- Peek c ;; Ok c
  | OpPeekN n => '(_, c) <- PeekN n c ;; Ok c
  | OpAdvance n => Ok (snd (Advance n c))
  | OpHasPrefix s => '(_, c) <- HasPrefix s c ;; Ok c
  | OpConsume s => '(_, c) <- Consume s c ;; Ok c
  | OpDone => '(_, c) <- Done c ;; Ok c
  end.

(** The runes an operation consumes when it is called in state [c]:
    [Cur] the head it pops after a successful fill, [Advance] the nodes
    its loop walks over, [Consume] the runes of a matched string. *)
Definition consumedBy (o : op) (c : RuneCursor) : list Z :=
  match o with
  | OpCur =>
    match fillRuneBuffer 1 c with
    | Ok (None, c1) => map val (firstn 1 (rabuf c1))
    | _ => []
    end
  | OpAdvance n => map val (firstn (Z.to_nat n) (rabuf c))
  | OpConsume s =>
    match Consume s c with
    | Ok (true, _) => utf8.runes s
    | _ => []
    end
  | _ => []
  end.

(** Runs the calls in order; the result carries the runes consumed. *)
Fixpoint run (ops : list op) (c : RuneCursor) : result (list Z * RuneCursor) :=
  match ops with
  | [] => Ok ([], c)
  | o :: ops' =>
    c1 <- exec o c ;;
    '(tr, c2) <- run ops' c1 ;;
    Ok (consumedBy o c ++ tr, c2)
  end.

(** [k] calls of [Cur] in a row, and what they returned. *)
Fixpoint curN (k : nat) (c : RuneCursor) : result (list Z * RuneCursor) :=
  match k with
  | O => Ok ([], c)
  | S k' =>
    '(r, c1) <- Cur c ;;
    '(rs, c2) <- curN k' c1 ;;
    Ok (r :: rs, c2)
  end.



(** The calls that are meant to consume: [Cur], [Advance], [Consume]. *)
Definition isConsuming (o : op) : bool :=
  match o with
  | OpCur | OpAdvance _ | OpConsume _ => true
  | _ => false
  end.

(** The scratch buffer after a fatal refill: [c.buf = []byte{}],
    [c.buflen = 0]. *)
Definition collapsed (c : RuneCursor) : Prop :=
  buf c = [] /\ buflen c = 0 /\ 0 <= bufpos c.


(** No node of the read-ahead list holds [utf8.RuneError]. *)
Definition queueClean (c : RuneCursor) : Prop :=
  Forall (fun h => val h <> utf8.RuneError) (rabuf c).

End Cursor.

Arguments RuneCursor R : clear implicits.

(** ** Vocabulary of the properties *)

(** The position rule: a line feed starts a line, any other rune moves one
    column to the right. *)
Definition advancePos (pos : Z * Z) (r : Z) : Z * Z :=
  if r =? 10 then (fst pos + 1, 1) else (fst pos, snd pos + 1).

Definition positionAfter (rs : list Z) (pos : Z * Z) : Z * Z :=
  fold_left advancePos rs pos.

Definition sumWidths (l : list runebuf) : Z :=
  fold_right (fun h a => width h + a) 0 l.

(** The number of line feeds among the runes [rs]. *)
Definition newlines (rs : list Z) : Z :=
  Z.of_nat (length (filter (Z.eqb 10) rs)).

(** The runes after the last line feed of [rs], all of [rs] if it has none. *)
Fixpoint afterLastNewline (rs : list Z) : list Z :=
  match rs with
  | [] => []
  | r :: t =>
    if existsb (Z.eqb 10) t then afterLastNewline t
    else if r =? 10 then t
    else r :: t
  end.

(** The nodes that decoding the string [s] from its start allocates. *)
Fixpoint nodesFrom (fuel : nat) (s : list byte) : list runebuf :=
  match fuel, s with
  | _, [] => []
  | O, _ => []
  | S fuel', _ =>
    let rw := utf8.DecodeRune s in
    {| val := fst rw; width := snd rw |}
      :: nodesFrom fuel' (skipn (Z.to_nat (snd rw)) s)
  end.

Definition nodes (s : list byte) : list runebuf := nodesFrom (length s) s.

(** A string whose decoding meets no [utf8.RuneError]: valid UTF-8 that
    does not contain the encoding of U+FFFD. *)
Definition decodable (s : list byte) : Prop :=
  Forall (fun r => r <> utf8.RuneError) (utf8.runes s).

(** A cursor over a chunked source whose read-ahead list is empty and
    whose scratch buffer, of capacity [cap], is decoded to its end. *)
Definition drained (cap : Z) (c : RuneCursor (list (list byte)))
           (chunks : list (list byte)) : Prop :=
  rabuf c = [] /\ rabuflen c = 0 /\ in_ c = chunks /\
  len (buf c) = cap /\ bufpos c = buflen c /\ 0 <= buflen c <= cap.

(** The capacity [NewRuneCursor] gives the scratch buffer. *)
Definition capacity (nn : list Z) : Z :=
  let n := match nn with [] => 0 | n0 :: _ => n0 end in
  if n <=? 0 then 40 else n.

(** ** Inputs of the examples *)

Definition returned {A B : Type} (r : result (A * B)) : result A :=
  '(a, _) <- r ;; Ok a.

Definition str_abc : list byte := ["a"; "b"; "c"]%byte.
Definition str_ab : list byte := ["a"; "b"]%byte.

(** "a\nb" *)
Definition str_a_nl_b : list byte := ["a"%byte; x0a; "b"%byte].

(** U+00E9 followed by "x": C3 A9 78. *)
Definition str_eacute_x : list byte := [xc3; xa9; "x"%byte].

(** 39 times "a", then U+00E9: a first read of 40 bytes ends between
    the two bytes C3 A9 of the last rune. *)
Definition str_straddle : list byte := repeat "a"%byte 39 ++ [xc3; xa9].


(** "a", the encoding EF BF BD of U+FFFD, "b". *)
Definition str_a_FFFD_b : list byte := ["a"%byte; xef; xbf; xbd; "b"%byte].

(** ** Vocabulary of the further properties *)

(** The indices of the scratch buffer are in bounds. *)
Definition bufOK {R : Type} (c : RuneCursor R) : Prop :=
  0 <= bufpos c /\ 0 <= buflen c <= len (buf c).

(** The read-ahead list is empty, counted as empty, and the scratch
    buffer is decoded to its end. *)
Definition idle {R : Type} (c : RuneCursor R) : Prop :=
  rabuf c = [] /\ rabuflen c = 0 /\ bufpos c = buflen c /\
  0 <= buflen c <= len (buf c).

(** The calls [Cur], [Peek] and [Done]. *)
Definition isSimple (o : op) : bool :=
  match o with
  | OpCur | OpPeek | OpDone => true
  | _ => false
  end.

(** The pieces of [k] bytes in which a [strings.Reader] hands out [s] to
    reads of [k] bytes. *)
Fixpoint chunksOf (fuel : nat) (k : nat) (s : list byte) : list (list byte) :=
  match fuel, s with
  | _, [] => []
  | O, _ => []
  | S fuel', _ => firstn k s :: chunksOf fuel' k (skipn k s)
  end.

(** A cursor whose scratch buffer holds "a", U+00E9 and the invalid
    byte FF, all of it undecoded. *)
Definition cursor_a_eacute_FF : RuneCursor (list byte) :=
  set_buflen 4 (set_bufpos 0 (set_buf [x61; xc3; xa9; xff]
                                      (NewRuneCursor [] [4]))).

(** A string of bytes below 0x80. *)
Definition isASCII (s : list byte) : Prop :=
  Forall (fun b => utf8.b2z b < 0x80) s.

Unset Implicit Arguments.

(** ** Facts about the decoder *)

Lemma utf8_first_cases (p0 : Z) :
  In (utf8.first p0)
     [utf8.as_; utf8.xx; utf8.s1; utf8.s2; utf8.s3; utf8.s4; utf8.s5; utf8.s6; utf8.s7].
Proof.
  unfold utf8.first.
  repeat match goal with
         | |- context [if ?b then _ else _] => destruct b
         end; simpl; tauto.
Qed.

Section Utf8Facts.

Import utf8.

Lemma DecodeRune_width (p : list byte) :
  fst (DecodeRune p) <> RuneError ->
  1 <= snd (DecodeRune p) <= 4 /\ snd (DecodeRune p) <= Z.of_nat (length p).
Proof.
  unfold DecodeRune.
  destruct p as [|c0 p1]; [simpl; congruence|].
  pose proof (utf8_first_cases (b2z c0)) as Hf. simpl in Hf.
  set (l := length (c0 :: p1)).
  assert (Hl : l = length (c0 :: p1)) by reflexivity.
  decompose [or] Hf; clear Hf;
    match goal with
    | E : _ = first _ |- _ => rewrite <- E
    | E : False |- _ => destruct E
    end;
    cbn -[Z.of_nat l Z.lor Z.land Z.shiftl];
    repeat match goal with
           | |- context [if ?b then _ else _] => destruct b eqn:?
           | |- context [match ?x with [] => _ | _ :: _ => _ end] => destruct x
           end; cbn -[Z.of_nat l Z.lor Z.land Z.shiftl]; intros; try congruence;
      subst l; cbn [length] in *; lia.
Qed.
Lemma DecodeRune_app (p q : list byte) :
  fst (DecodeRune p) <> RuneError ->
  DecodeRune (p ++ q) = DecodeRune p.
Proof.
  unfold DecodeRune.
  destruct p as [|c0 p1]; [simpl; congruence|].
  rewrite <- app_comm_cons.
  pose proof (utf8_first_cases (b2z c0)) as Hf. simpl in Hf.
  set (l := length (c0 :: p1)).
  set (l' := length (c0 :: p1 ++ q)).
  assert (Hl : l = length (c0 :: p1)) by reflexivity.
  assert (Hl' : l' = length (c0 :: p1 ++ q)) by reflexivity.
  decompose [or] Hf; clear Hf;
    match goal with
    | E : _ = first _ |- _ => rewrite <- E
    | E : False |- _ => destruct E
    end;
    cbn -[Z.of_nat l l' Z.lor Z.land Z.shiftl]; try reflexivity;
    (destruct p1 as [|c1 [|c2 [|c3 p4]]];
     cbn -[Z.of_nat l l' Z.lor Z.land Z.shiftl];
     repeat match goal with
            | |- context [if ?b then _ else _] => destruct b eqn:?
            | |- context [match ?x with [] => _ | _ :: _ => _ end] => destruct x
            end; cbn -[Z.of_nat l l' Z.lor Z.land Z.shiftl]; intros;
     try congruence; try reflexivity;
     subst l l'; cbn [length] in *; rewrite ?length_app in *; cbn [length] in *;
     unfold s1, s2, s3, s4, s5, s6, s7 in *; simpl (Z.land _ 7) in *; lia).
Qed.

End Utf8Facts.

(** ** Facts about the loops of the cursor *)

Lemma bind_Ok {A B : Type} (m : result A) (k : A -> result B) (v : B) :
  bind m k = Ok v -> exists a, m = Ok a /\ k a = Ok v.
Proof. destruct m; simpl; intros E; try discriminate. eauto. Qed.

Ltac splits :=
  unfold collapsed in *; simpl;
  repeat match goal with
         | |- _ /\ _ => split
         | |- _ -> _ => intro
         end.

Ltac inv_bind H :=
  let a := fresh "a" in
  let E := fresh "E" in
  apply bind_Ok in H; destruct H as (a & E & H).

Section CursorFacts.

Context {R : Type} `{Reader R}.

Implicit Types c : RuneCursor R.

Lemma sliceFrom_Ok (s : list byte) (lo : Z) (p : list byte) :
  sliceFrom s lo = Ok p ->
  0 <= lo <= len s /\ p = skipn (Z.to_nat lo) s.
Proof.
  unfold sliceFrom.
  destruct ((0 <=? lo) && (lo <=? len s)) eqn:E; intros E'; inversion E'.
  split; [lia | reflexivity].
Qed.

(** What one call of the decoding loop does to the cursor. *)
Lemma decodeLoop_inv (fuel : nat) :
  forall (last : bool) c e c',
    decodeLoop fuel last c = Ok (e, c') ->
    buf c' = buf c /\ buflen c' = buflen c /\ column c' = column c /\
    in_ c' = in_ c /\ lineno c' = lineno c /\ nread c' = nread c /\
    bufpos c <= bufpos c' /\
    exists new : list runebuf,
      Forall (fun h => val h <> utf8.RuneError) new /\
      rabuflen c' = rabuflen c + len new /\
      rabuf c' = (if last then rabuf c ++ new
                  else match new with [] => rabuf c | _ => new end).
Proof.
  induction fuel as [|fuel IH]; intros last c e c' E; simpl in E.
  - destruct (bufpos c <? buflen c); [discriminate|].
    inversion E; subst. repeat split; try lia.
    exists []. split; [constructor|]. split; [unfold len; simpl; lia|].
    destruct last; [rewrite app_nil_r|]; reflexivity.
  - destruct (bufpos c <? buflen c).
    + inv_bind E. apply sliceFrom_Ok in E0. destruct E0 as [Hlo ->].
      set (rw := utf8.DecodeRune (skipn (Z.to_nat (bufpos c)) (buf c))) in *.
      destruct (fst rw =? utf8.RuneError) eqn:Er.
      * inversion E; subst. repeat split; try lia.
        exists []. split; [constructor|]. split; [unfold len; simpl; lia|].
        destruct last; [rewrite app_nil_r|]; reflexivity.
      * apply IH in E. simpl in E.
        destruct E as (-> & -> & -> & -> & -> & -> & Hpos & new & Hnew & Hlen & Hq).
        assert (Hw : fst rw <> utf8.RuneError) by lia.
        pose proof (DecodeRune_width _ Hw) as [Hw1 _]. fold rw in Hw1.
        repeat split; try lia.
        exists ({| val := fst rw; width := snd rw |} :: new).
        split; [constructor; assumption|].
        split; [rewrite Hlen; unfold len; simpl length; lia|].
        rewrite Hq. destruct last; [rewrite <- app_assoc|]; reflexivity.
    + inversion E; subst. repeat split; try lia.
      exists []. split; [constructor|]. split; [unfold len; simpl; lia|].
      destruct last; [rewrite app_nil_r|]; reflexivity.
Qed.

(** The loop never runs out of iterations: every turn moves [bufpos]
    forward by the width of a rune. *)
Lemma decodeLoop_fuel (fuel : nat) :
  forall (last : bool) c,
    (Z.to_nat (buflen c - bufpos c) <= fuel)%nat ->
    decodeLoop fuel last c <> OutOfFuel.
Proof.
  induction fuel as [|fuel IH]; intros last c Hf; simpl.
  - destruct (bufpos c <? buflen c) eqn:E; [lia | discriminate].
  - destruct (bufpos c <? buflen c) eqn:E; [|discriminate].
    destruct (sliceFrom (buf c) (bufpos c)) as [p| |] eqn:Es; simpl;
      try discriminate.
    + destruct (fst (utf8.DecodeRune p) =? utf8.RuneError) eqn:Er;
        [discriminate|].
      apply IH. simpl.
      assert (Hw : fst (utf8.DecodeRune p) <> utf8.RuneError) by lia.
      pose proof (DecodeRune_width _ Hw). lia.
    + unfold sliceFrom in Es.
      destruct ((0 <=? bufpos c) && (bufpos c <=? len (buf c))); discriminate.
Qed.

Lemma decodeIntoRuneBuffer_total c : decodeIntoRuneBuffer c <> OutOfFuel.
Proof. apply decodeLoop_fuel. lia. Qed.

Lemma decode_inv c e c' :
  decodeIntoRuneBuffer c = Ok (e, c') ->
  buf c' = buf c /\ buflen c' = buflen c /\ column c' = column c /\
  in_ c' = in_ c /\ lineno c' = lineno c /\ nread c' = nread c /\
  bufpos c <= bufpos c' /\ rabuflen c <= rabuflen c' /\
  (queueClean c -> queueClean c').
Proof.
  intros E. apply decodeLoop_inv in E.
  destruct E as (Hb & Hl & Hc & Hi & Hn & Hr & Hp & new & Hnew & Hlen & Hq).
  repeat split; try assumption.
  - unfold len in Hlen. lia.
  - unfold queueClean. rewrite Hq. destruct new; auto.
Qed.

Lemma readInto_inv c n' err c' :
  readInto c = Ok (n', err, c') ->
  buflen c' = buflen c /\ bufpos c' = bufpos c /\ column c' = column c /\
  lineno c' = lineno c /\ nread c' = nread c /\ rabuf c' = rabuf c /\
  rabuflen c' = rabuflen c /\
  0 <= bufpos c <= len (buf c) /\ 0 <= n' <= len (buf c) - bufpos c.
Proof.
  unfold readInto. intros E. inv_bind E.
  apply sliceFrom_Ok in E0. destruct E0 as [Hlo ->].
  pose proof (Read_len (in_ c) (length (skipn (Z.to_nat (bufpos c)) (buf c)))) as Hrl.
  destruct (Read (in_ c) (length (skipn (Z.to_nat (bufpos c)) (buf c))))
    as [[data err0] r'].
  inversion E; subst; simpl in *.
  rewrite length_skipn in Hrl. unfold len in *.
  repeat split; try reflexivity; lia.
Qed.

(** What the refill loop does to the cursor, whichever way it ends. *)
Lemma fillLoop_inv (fuel : nat) :
  forall (n prev : Z) c e c',
    fillLoop fuel n prev c = Ok (e, c') ->
    column c' = column c /\ lineno c' = lineno c /\ nread c' = nread c /\
    rabuflen c <= rabuflen c' /\
    (queueClean c -> queueClean c') /\
    (e = None -> n <= rabuflen c') /\
    (e <> None -> prev <= rabuflen c -> collapsed c' /\ rabuflen c' < n).
Proof.
  induction fuel as [|fuel IH]; intros n prev c e c' E; simpl in E;
    [discriminate|].
  inv_bind E. destruct a as [e1 c1].
  apply decode_inv in E0.
  destruct E0 as (Hb1 & Hl1 & Hc1 & Hi1 & Hn1 & Hr1 & Hp1 & Hq1 & Hcl1).
  destruct (rabuflen c1 >=? n) eqn:Hge.
  { inversion E; subst.
    repeat split; try assumption; try lia; intros; congruence. }
  inv_bind E. rename a into c2.
  assert (Hc2 : buflen c2 = buflen c1 /\ bufpos c2 = bufpos c1 /\
                column c2 = column c1 /\ lineno c2 = lineno c1 /\
                nread c2 = nread c1 /\ rabuf c2 = rabuf c1 /\
                rabuflen c2 = rabuflen c1).
  { destruct (bufpos c1 <? buflen c1).
    - inv_bind E0. inversion E0; subst. simpl. tauto.
    - inversion E0; subst. tauto. }
  clear E0.
  destruct Hc2 as (Hl2 & Hp2 & Hc2 & Hn2 & Hr2 & Hq2 & Hql2).
  set (c3 := if bufpos c2 >? buflen c2 then set_bufpos 0 c2
             else set_bufpos (buflen c2 - bufpos c2) c2) in *.
  assert (Hc3 : buflen c3 = buflen c2 /\ 0 <= bufpos c3 /\
                column c3 = column c2 /\ lineno c3 = lineno c2 /\
                nread c3 = nread c2 /\ rabuf c3 = rabuf c2 /\
                rabuflen c3 = rabuflen c2).
  { subst c3. destruct (bufpos c2 >? buflen c2) eqn:Hgt; simpl;
      repeat split; try reflexivity; lia. }
  destruct Hc3 as (Hl3 & Hp3 & Hc3 & Hn3 & Hr3 & Hq3 & Hql3).
  clearbody c3.
  inv_bind E. destruct a as [[n' err] c4].
  apply readInto_inv in E0.
  destruct E0 as (Hl4 & Hp4 & Hc4 & Hn4 & Hr4 & Hq4 & Hql4 & Hb4 & Hn').
  destruct ((n' =? 0) && isErr err) eqn:Hfatal.
  { destruct err as [er|]; [|rewrite andb_false_r in Hfatal; discriminate].
    inversion E; subst. unfold queueClean in *. simpl.
    rewrite Hq4, Hq3, Hq2. splits; try congruence; try lia; auto. }
  inv_bind E. destruct a as [e5 c5].
  apply decode_inv in E0. simpl in E0.
  destruct E0 as (Hb5 & Hl5 & Hc5 & Hi5 & Hn5 & Hr5 & Hp5 & Hq5 & Hcl5).
  assert (Hcl : queueClean c -> queueClean c5).
  { intros Hq. apply Hcl5. unfold queueClean in *. simpl.
    rewrite Hq4, Hq3, Hq2. auto. }
  destruct (prev =? rabuflen c5) eqn:Hstall.
  { inversion E; subst. splits; try congruence; try lia; auto. }
  apply IH in E.
  destruct E as (Hc6 & Hn6 & Hr6 & Hq6 & Hcl6 & Hok & Hfail).
  assert (Hle : rabuflen c5 <= rabuflen c5) by lia.
  splits; try congruence; try lia; auto;
    destruct Hfail as [(? & ? & ?) ?]; auto.
Qed.

Lemma fillLoop_fuel (fuel : nat) :
  forall (n : Z) c,
    (Z.to_nat (n - rabuflen c) < fuel)%nat ->
    fillLoop fuel n (rabuflen c) c <> OutOfFuel.
Proof.
  induction fuel as [|fuel IH]; intros n c Hf; simpl; [lia|].
  pose proof (decodeIntoRuneBuffer_total c) as Ht.
  destruct (decodeIntoRuneBuffer c) as [[e1 c1]| |] eqn:E1; simpl;
    try discriminate; try congruence.
  apply decode_inv in E1.
  destruct E1 as (Hb1 & Hl1 & Hc1 & Hi1 & Hn1 & Hr1 & Hp1 & Hq1 & Hcl1).
  destruct (rabuflen c1 >=? n) eqn:Hge; [discriminate|].
  match goal with
  | |- context [bind ?m _] => destruct m as [c2| |] eqn:E2
  end; simpl; try discriminate.
  2:{ destruct (bufpos c1 <? buflen c1); [|discriminate].
      unfold sliceFrom in E2.
      destruct ((0 <=? bufpos c1) && (bufpos c1 <=? len (buf c1)));
        discriminate. }
  assert (Hq2 : rabuflen c2 = rabuflen c1).
  { destruct (bufpos c1 <? buflen c1).
    - inv_bind E2. inversion E2; subst. reflexivity.
    - inversion E2; subst. reflexivity. }
  clear E2.
  set (c3 := if bufpos c2 >? buflen c2 then set_bufpos 0 c2
             else set_bufpos (buflen c2 - bufpos c2) c2) in *.
  assert (Hq3 : rabuflen c3 = rabuflen c2).
  { subst c3. destruct (bufpos c2 >? buflen c2); reflexivity. }
  clearbody c3.
  destruct (readInto c3) as [[[n' err] c4]| |] eqn:E4; simpl;
    try discriminate.
  2:{ unfold readInto, sliceFrom in E4.
      destruct ((0 <=? bufpos c3) && (bufpos c3 <=? len (buf c3)));
        simpl in E4; [|discriminate].
      destruct (Read (in_ c3) _) as [[? ?] ?]. discriminate. }
  apply readInto_inv in E4.
  destruct E4 as (Hl4 & Hp4 & Hc4 & Hn4 & Hr4 & Hq4 & Hql4 & Hb4 & Hn').
  destruct ((n' =? 0) && isErr err); [discriminate|].
  pose proof (decodeIntoRuneBuffer_total (set_buflen n' c4)) as Ht5.
  destruct (decodeIntoRuneBuffer (set_buflen n' c4)) as [[e5 c5]| |] eqn:E5;
    simpl; try discriminate; try congruence.
  apply decode_inv in E5. simpl in E5.
  destruct E5 as (Hb5 & Hl5 & Hc5 & Hi5 & Hn5 & Hr5 & Hp5 & Hq5 & Hcl5).
  destruct (rabuflen c =? rabuflen c5) eqn:Hstall; [discriminate|].
  apply IH. lia.
Qed.

Lemma fillRuneBuffer_total (n : Z) c : fillRuneBuffer n c <> OutOfFuel.
Proof.
  unfold fillRuneBuffer. destruct (rabuflen c >=? n); [discriminate|].
  apply fillLoop_fuel. lia.
Qed.

(** The fill leaves the position alone; a success leaves at least [n]
    counted runes, a failure leaves the buffer collapsed. *)
Lemma fillRuneBuffer_inv (n : Z) c e c' :
  fillRuneBuffer n c = Ok (e, c') ->
  column c' = column c /\ lineno c' = lineno c /\ nread c' = nread c /\
  rabuflen c <= rabuflen c' /\
  (queueClean c -> queueClean c') /\
  (e = None -> n <= rabuflen c') /\
  (e <> None -> collapsed c' /\ rabuflen c' < n).
Proof.
  unfold fillRuneBuffer. destruct (rabuflen c >=? n) eqn:Hge; intros E.
  - inversion E; subst. splits; try lia; auto; congruence.
  - apply fillLoop_inv in E.
    destruct E as (Hc & Hl & Hn & Hr & Hq & Hok & Hfail).
    splits; auto; destruct Hfail as [(? & ? & ?) ?]; auto; lia.
Qed.

End CursorFacts.

(** ** Facts about [Advance] and the position rule *)

Lemma utf8_DecodeRune_width_any (p : list byte) :
  p <> [] -> 1 <= snd (utf8.DecodeRune p) <= 4.
Proof.
  unfold utf8.DecodeRune.
  destruct p as [|c0 p1]; [congruence|]. intros _.
  repeat match goal with
         | |- context [if ?b then _ else _] => destruct b
         | |- context [match ?x with [] => _ | _ :: _ => _ end] => destruct x
         end; simpl; lia.
Qed.

Lemma runesFrom_fuel2 (f1 : nat) :
  forall (f2 : nat) (s : list byte),
    (length s <= f1)%nat -> (length s <= f2)%nat ->
    utf8.runesFrom f1 s = utf8.runesFrom f2 s.
Proof.
  induction f1 as [|f1 IH]; intros f2 s H1 H2.
  - destruct s; [destruct f2; reflexivity | simpl in H1; lia].
  - destruct s as [|b s]; [destruct f2; reflexivity|].
    destruct f2 as [|f2]; [simpl in H2; lia|].
    cbn [utf8.runesFrom]. cbn zeta. f_equal.
    assert (Hw : 1 <= snd (utf8.DecodeRune (b :: s)) <= 4)
      by (apply utf8_DecodeRune_width_any; discriminate).
    apply IH; rewrite length_skipn; simpl length in *; lia.
Qed.

Lemma runesFrom_fuel (fuel : nat) (s : list byte) :
  (length s <= fuel)%nat -> utf8.runesFrom fuel s = utf8.runes s.
Proof. intros Hs. apply runesFrom_fuel2; [assumption | lia]. Qed.

Lemma positionAfter_snoc (rs : list Z) (r : Z) (pos : Z * Z) :
  positionAfter (rs ++ [r]) pos = advancePos (positionAfter rs pos) r.
Proof. unfold positionAfter. rewrite fold_left_app. reflexivity. Qed.

Lemma positionAfter_app (rs1 rs2 : list Z) (pos : Z * Z) :
  positionAfter (rs1 ++ rs2) pos = positionAfter rs2 (positionAfter rs1 pos).
Proof. unfold positionAfter. apply fold_left_app. Qed.

Section AdvanceFacts.

Context {R : Type} `{Reader R}.
Implicit Types c : RuneCursor R.

Lemma consumeNode_pos (h : runebuf) c :
  (lineno (consumeNode h c), column (consumeNode h c)) =
  advancePos (lineno c, column c) (val h).
Proof.
  unfold consumeNode, advancePos. destruct (val h =? 10); reflexivity.
Qed.

Lemma advanceLoop_spec (k : nat) :
  forall (head : list runebuf) c,
    let taken := firstn k head in
    let r := advanceLoop k head c in
    nread (snd r) = nread c + sumWidths taken /\
    (lineno (snd r), column (snd r)) =
      positionAfter (map val taken) (lineno c, column c) /\
    rabuflen (snd r) = rabuflen c - len taken /\
    in_ (snd r) = in_ c /\ buf (snd r) = buf c /\
    buflen (snd r) = buflen c /\ bufpos (snd r) = bufpos c /\
    (if (k <=? length head)%nat
     then fst r = None /\ rabuf (snd r) = skipn k head
     else fst r = Some FailedToPop /\ rabuf (snd r) = rabuf c).
Proof.
  induction k as [|k IH]; intros head c; cbn zeta.
  - simpl. unfold len. simpl.
    repeat split; try reflexivity; lia.
  - destruct head as [|h t].
    + simpl. unfold len. simpl. repeat split; try reflexivity; lia.
    + cbn [advanceLoop firstn map]. specialize (IH t (consumeNode h c)).
      cbn zeta in IH.
      destruct IH as (Hn & Hp & Hl & Hi & Hb & Hbl & Hbp & Hq).
      rewrite consumeNode_pos in Hp.
      repeat split; try assumption.
      * rewrite Hn. unfold consumeNode, sumWidths. cbn [fold_right].
        destruct (val h =? 10); cbn [nread set_nread set_column set_lineno set_rabuflen]; lia.
      * rewrite Hl. unfold consumeNode, len. simpl length.
        destruct (val h =? 10); cbn [rabuflen set_nread set_column set_lineno set_rabuflen]; lia.
      * rewrite Hi. unfold consumeNode. destruct (val h =? 10); reflexivity.
      * rewrite Hb. unfold consumeNode. destruct (val h =? 10); reflexivity.
      * rewrite Hbl. unfold consumeNode. destruct (val h =? 10); reflexivity.
      * rewrite Hbp. unfold consumeNode. destruct (val h =? 10); reflexivity.
      * change (S k <=? length (h :: t))%nat with (k <=? length t)%nat.
        destruct (k <=? length t)%nat; destruct Hq as [Hq1 Hq2];
          split; try assumption.
        rewrite Hq2. unfold consumeNode. destruct (val h =? 10); reflexivity.
Qed.

End AdvanceFacts.

(** ** Facts about the matching walk *)

Lemma runes_cons (s : list byte) :
  s <> [] ->
  utf8.runes s =
  fst (utf8.DecodeRune s)
    :: utf8.runes (skipn (Z.to_nat (snd (utf8.DecodeRune s))) s).
Proof.
  intros Hs. destruct s as [|b s]; [congruence|].
  unfold utf8.runes at 1. cbn [length utf8.runesFrom]. cbn zeta. f_equal.
  apply runesFrom_fuel.
  assert (Hw : 1 <= snd (utf8.DecodeRune (b :: s)) <= 4)
    by (apply utf8_DecodeRune_width_any; discriminate).
  rewrite length_skipn. simpl length. lia.
Qed.

Section PrefixFacts.

Context {R : Type} `{Reader R}.
Implicit Types c : RuneCursor R.

(** The matching walk: a failed walk leaves the cursor as it is; a
    match has walked over the runes of [s], and commits, if asked to,
    the new head and the position after these runes. *)
Lemma prefixWalk_spec (cur : list runebuf) :
  forall (s : list byte) (nl col line : Z) (consume : bool) c,
    line = lineno c + nl ->
    match prefixWalk cur s nl col consume c with
    | (false, c') => c' = c
    | (true, c') =>
      exists matched rest,
        cur = matched ++ rest /\ map val matched = utf8.runes s /\
        c' = if consume
             then set_lineno (fst (positionAfter (map val matched) (line, col)))
                    (set_column (snd (positionAfter (map val matched) (line, col)))
                       (set_rabuf rest c))
             else c
    end.
Proof.
  induction cur as [|h next IH]; intros s nl col line consume c Hline;
    cbn [prefixWalk]; [reflexivity|]. cbn zeta.
  unfold utf8.DecodeRuneInString.
  destruct (fst (utf8.DecodeRune s) =? utf8.RuneError) eqn:Er; [reflexivity|].
  destruct (val h =? fst (utf8.DecodeRune s)) eqn:Ev; cbn [negb];
    [|reflexivity].
  assert (Hs : s <> []).
  { intros ->. simpl in Er. unfold utf8.RuneError in Er. lia. }
  pose proof (runes_cons s Hs) as Hrunes.
  set (r := fst (utf8.DecodeRune s)) in *.
  set (s' := skipn (Z.to_nat (snd (utf8.DecodeRune s))) s) in *.
  assert (Hval : val h = r) by lia.
  assert (Hadv : advancePos (line, col) r =
                 (lineno c + (if r =? 10 then nl + 1 else nl),
                  if r =? 10 then 1 else col + 1)).
  { unfold advancePos. cbn [fst snd]. destruct (r =? 10); f_equal; lia. }
  destruct (len s' =? 0) eqn:Hend.
  - exists [h], next. split; [reflexivity|]. split.
    + rewrite Hrunes. cbn [map]. rewrite Hval.
      destruct s'; [reflexivity | unfold len in Hend; simpl in Hend; lia].
    + destruct consume; [|reflexivity].
      cbn [map]. rewrite Hval. unfold positionAfter. cbn [fold_left].
      rewrite Hadv. reflexivity.
  - specialize (IH s' (if r =? 10 then nl + 1 else nl)
                   (if r =? 10 then 1 else col + 1)
                   (lineno c + (if r =? 10 then nl + 1 else nl))
                   consume c eq_refl).
    destruct (prefixWalk next s' _ _ consume c) as [[|] c']; [|assumption].
    destruct IH as (matched & rest & -> & Hm & ->).
    exists (h :: matched), rest. split; [reflexivity|]. split.
    + rewrite Hrunes. cbn [map]. rewrite Hval, Hm. reflexivity.
    + cbn [map]. rewrite Hval. unfold positionAfter. cbn [fold_left].
      rewrite Hadv. reflexivity.
Qed.

Lemma prefixWalk_bool (cur : list runebuf) :
  forall (s : list byte) (nl col : Z) (consume : bool) c,
    fst (prefixWalk cur s nl col consume c) =
    fst (prefixWalk cur s nl col false c).
Proof.
  induction cur as [|h next IH]; intros s nl col consume c;
    cbn [prefixWalk]; [reflexivity|]. cbn zeta.
  destruct (fst (utf8.DecodeRuneInString s) =? utf8.RuneError);
    [reflexivity|].
  destruct (negb (val h =? fst (utf8.DecodeRuneInString s)));
    [reflexivity|].
  destruct (len (skipn (Z.to_nat (snd (utf8.DecodeRuneInString s))) s) =? 0);
    [reflexivity|].
  apply IH.
Qed.

End PrefixFacts.

(** ** Facts about a collapsed buffer *)

Section CollapsedFacts.

Context {R : Type} `{Reader R}.
Implicit Types c : RuneCursor R.

Lemma decodeLoop_done (fuel : nat) (last : bool) c :
  buflen c <= bufpos c -> decodeLoop fuel last c = Ok (None, c).
Proof.
  intros Hle. destruct fuel; simpl;
    replace (bufpos c <? buflen c) with false by lia; reflexivity.
Qed.

Lemma decode_done c :
  buflen c <= bufpos c -> decodeIntoRuneBuffer c = Ok (None, c).
Proof. apply decodeLoop_done. Qed.

(** On a collapsed buffer a fill that needs more runes than are counted
    fails again: the source is asked to read into an empty slice, which
    yields no byte, and nothing but the source and [bufpos] changes. *)
Lemma fill_collapsed (n : Z) c :
  collapsed c -> rabuflen c < n ->
  exists e c',
    fillRuneBuffer n c = Ok (Some e, c') /\ collapsed c' /\
    rabuf c' = rabuf c /\ rabuflen c' = rabuflen c /\
    lineno c' = lineno c /\ column c' = column c /\ nread c' = nread c.
Proof.
  intros (Hb & Hl & Hp) Hn.
  unfold fillRuneBuffer. replace (rabuflen c >=? n) with false by lia.
  cbn [fillLoop].
  rewrite decode_done by lia. cbn [bind].
  replace (rabuflen c >=? n) with false by lia.
  replace (bufpos c <? buflen c) with false by lia. cbn [bind].
  set (c3 := if bufpos c >? buflen c then set_bufpos 0 c
             else set_bufpos (buflen c - bufpos c) c).
  assert (Hc3 : c3 = set_bufpos 0 c).
  { subst c3. destruct (bufpos c >? buflen c) eqn:Hgt; [reflexivity|].
    f_equal. lia. }
  rewrite Hc3. clear c3 Hc3.
  unfold readInto. cbn [buf bufpos set_bufpos in_]. rewrite Hb.
  cbn [sliceFrom len length Z.of_nat Z.leb Z.compare andb bind skipn Z.to_nat].
  pose proof (Read_len (in_ c) 0) as Hrl.
  destruct (Read (in_ c) 0) as [[data err] r'].
  cbn [fst] in Hrl. destruct data as [|d data]; [|simpl in Hrl; lia].
  cbn [bind firstn copy length skipn app len Z.of_nat Z.eqb andb].
  destruct err as [e|]; cbn [isErr].
  - eexists e, _. split; [reflexivity|].
    unfold collapsed. cbn. repeat split; lia.
  - rewrite decode_done by (cbn; lia). cbn [bind].
    cbn [rabuflen set_buflen set_in set_buf set_bufpos].
    rewrite Z.eqb_refl.
    eexists FailedToFill, _. split; [reflexivity|].
    unfold collapsed. cbn. repeat split; lia.
Qed.

Lemma fill_keeps_collapsed (n : Z) c e c' :
  collapsed c -> fillRuneBuffer n c = Ok (e, c') ->
  collapsed c' /\ rabuf c' = rabuf c /\ rabuflen c' = rabuflen c /\
  (e = None <-> n <= rabuflen c).
Proof.
  intros Hcol E.
  destruct (Z.lt_ge_cases (rabuflen c) n) as [Hlt|Hge].
  - destruct (fill_collapsed n c Hcol Hlt)
      as (e0 & c0 & E0 & Hc0 & Hq & Hql & _).
    rewrite E0 in E. inversion E; subst.
    split; [assumption|]. split; [assumption|]. split; [assumption|].
    split; intros; [discriminate | lia].
  - unfold fillRuneBuffer in E.
    replace (rabuflen c >=? n) with true in E by lia.
    inversion E; subst.
    split; [assumption|]. split; [reflexivity|]. split; [reflexivity|].
    split; intros; [lia | reflexivity].
Qed.

End CollapsedFacts.

(** ** Facts about the operations *)

Section OperationFacts.

Context {R : Type} `{Reader R}.
Implicit Types c : RuneCursor R.

Lemma Cur_inv c (v : Z) c' :
  Cur c = Ok (v, c') ->
  exists e c1,
    fillRuneBuffer 1 c = Ok (e, c1) /\
    ((e <> None /\ v = utf8.RuneError /\ c' = c1) \/
     (e = None /\ exists h t, rabuf c1 = h :: t /\ v = val h /\
                              c' = snd (Advance 1 c1))).
Proof.
  unfold Cur. intros E. inv_bind E. destruct a as [e c1].
  exists e, c1. split; [assumption|].
  destruct e as [e|]; cbn [isErr] in E.
  - inversion E; subst. left. repeat split. discriminate.
  - right. split; [reflexivity|].
    destruct (rabuf c1) as [|h t] eqn:Hq; [discriminate|].
    inversion E; subst. exists h, t. repeat split.
Qed.

Lemma PeekN_inv (n : Z) c (v : Z) c' :
  PeekN n c = Ok (v, c') ->
  exists e,
    fillRuneBuffer n c = Ok (e, c') /\
    ((e <> None /\ v = utf8.RuneError) \/
     (e = None /\ peekWalk (Z.to_nat (n - 1)) (rabuf c') = Ok v)).
Proof.
  unfold PeekN. intros E. inv_bind E. destruct a as [e c1].
  destruct e as [e|]; cbn [isErr] in E.
  - inversion E; subst. exists (Some e). split; [assumption|].
    left. split; [discriminate | reflexivity].
  - inv_bind E. inversion E; subst. exists None. split; [assumption|].
    right. split; [reflexivity | assumption].
Qed.

Lemma Done_inv c (b : bool) c' :
  Done c = Ok (b, c') ->
  exists e, fillRuneBuffer 1 c = Ok (e, c') /\ b = isErr e.
Proof.
  unfold Done. intros E. inv_bind E. destruct a as [e c1].
  inversion E; subst. exists e. split; [assumption | reflexivity].
Qed.


(** What [hasPrefix] does after its fill. *)
Lemma hasPrefix_spec (s : list byte) (n : Z) (consume : bool) c
      (b : bool) c2 :
  hasPrefix s n consume c = Ok (b, c2) ->
  exists e c1,
    fillRuneBuffer n c = Ok (e, c1) /\
    hasPrefix s n false c = Ok (b, c1) /\
    if b && consume then
      exists matched,
        rabuf c1 = matched ++ rabuf c2 /\
        map val matched = utf8.runes s /\
        (lineno c2, column c2) =
          positionAfter (map val matched) (lineno c, column c) /\
        c2 = set_lineno (lineno c2)
               (set_column (column c2) (set_rabuf (rabuf c2) c1))
    else c2 = c1.
Proof.
  unfold hasPrefix. intros E. inv_bind E. destruct a as [e c1].
  exists e, c1. split; [assumption|]. rewrite E0. cbn [bind].
  apply fillRuneBuffer_inv in E0. destruct E0 as (Hc & Hl & Hn & _).
  destruct e as [e|]; cbn [isErr] in *.
  { inversion E; subst. split; reflexivity. }
  pose proof (prefixWalk_spec (rabuf c1) s 0 (column c1) (lineno c1) false c1
                ltac:(lia)) as Hh.
  pose proof (prefixWalk_spec (rabuf c1) s 0 (column c1) (lineno c1) consume c1
                ltac:(lia)) as Hcs.
  pose proof (prefixWalk_bool (rabuf c1) s 0 (column c1) consume c1) as Hb.
  destruct (prefixWalk (rabuf c1) s 0 (column c1) false c1) as [b1 ch].
  destruct (prefixWalk (rabuf c1) s 0 (column c1) consume c1) as [b2 cc].
  cbn [fst] in Hb. subst b2. inversion E; subst b1 cc. clear E.
  destruct b; cbn [andb].
  - destruct Hh as (m1 & r1 & _ & _ & ->). split; [reflexivity|].
    destruct Hcs as (m2 & r2 & Hq & Hm & ->).
    destruct consume; [|reflexivity].
    exists m2. cbn. rewrite <- Hl, <- Hc.
    repeat split; try assumption.
    destruct (positionAfter (map val m2) (lineno c1, column c1)); reflexivity.
  - subst. split; reflexivity.
Qed.

(** Every operation moves line and column by the position rule over the
    runes it consumes, and by nothing else. *)
Lemma exec_position (o : op) c c' :
  exec o c = Ok c' ->
  (lineno c', column c') =
  positionAfter (consumedBy o c) (lineno c, column c).
Proof.
  destruct o as [| |n|n|s|s|]; cbn [exec consumedBy]; intros E.
  - inv_bind E. destruct a as [v c1]. inversion E; subst. clear E.
    apply Cur_inv in E0.
    destruct E0 as (e & c1 & Ef & [(He & _ & ->)|(-> & h & t & Hq & _ & ->)]);
      rewrite Ef; pose proof (fillRuneBuffer_inv _ _ _ _ Ef) as (Hc & Hl & _).
    + destruct e; [|congruence]. cbn. congruence.
    + pose proof (advanceLoop_spec 1 (rabuf c1) c1) as Ha. cbn zeta in Ha.
      destruct Ha as (_ & Hp & _). unfold Advance.
      change (Z.to_nat 1) with 1%nat. rewrite Hp, Hl, Hc. reflexivity.
  - inv_bind E. destruct a as [v c1]. inversion E; subst. clear E.
    apply PeekN_inv in E0. destruct E0 as (e & Ef & _).
    apply fillRuneBuffer_inv in Ef. destruct Ef as (Hc & Hl & _).
    cbn. congruence.
  - inv_bind E. destruct a as [v c1]. inversion E; subst. clear E.
    apply PeekN_inv in E0. destruct E0 as (e & Ef & _).
    apply fillRuneBuffer_inv in Ef. destruct Ef as (Hc & Hl & _).
    cbn. congruence.
  - inversion E; subst. clear E.
    pose proof (advanceLoop_spec (Z.to_nat n) (rabuf c) c) as Ha.
    cbn zeta in Ha. destruct Ha as (_ & Hp & _). exact Hp.
  - inv_bind E. destruct a as [b c1]. inversion E; subst. clear E.
    apply hasPrefix_spec in E0.
    destruct E0 as (e & c1 & Ef & _ & Hcs).
    rewrite andb_false_r in Hcs. subst c1.
    apply fillRuneBuffer_inv in Ef. destruct Ef as (Hc & Hl & _).
    cbn. congruence.
  - inv_bind E. destruct a as [b c1]. inversion E; subst. clear E.
    rewrite E0. apply hasPrefix_spec in E0.
    destruct E0 as (e & c1 & Ef & _ & Hcs).
    apply fillRuneBuffer_inv in Ef. destruct Ef as (Hc & Hl & _).
    destruct b; cbn [andb] in Hcs.
    + destruct Hcs as (m & _ & Hm & Hp & _). rewrite <- Hm. exact Hp.
    + subst c1. cbn. congruence.
  - inv_bind E. destruct a as [b c1]. inversion E; subst. clear E.
    apply Done_inv in E0. destruct E0 as (e & Ef & _).
    apply fillRuneBuffer_inv in Ef. destruct Ef as (Hc & Hl & _).
    cbn. congruence.
Qed.

Lemma run_position (ops : list op) :
  forall c (tr : list Z) c',
    run ops c = Ok (tr, c') ->
    (lineno c', column c') = positionAfter tr (lineno c, column c).
Proof.
  induction ops as [|o ops IH]; intros c tr c' E; cbn [run] in E.
  - inversion E; subst. reflexivity.
  - inv_bind E. rename a into c1. inv_bind E. destruct a as [tr1 c2].
    inversion E; subst. clear E.
    rewrite positionAfter_app.
    rewrite <- (exec_position _ _ _ E0). apply IH. assumption.
Qed.

End OperationFacts.

Lemma newlines_snoc (rs : list Z) (r : Z) :
  newlines (rs ++ [r]) = newlines rs + (if r =? 10 then 1 else 0).
Proof.
  unfold newlines. rewrite filter_app, length_app. cbn [filter].
  rewrite (Z.eqb_sym 10 r). destruct (r =? 10); simpl; lia.
Qed.

Lemma afterLastNewline_snoc (rs : list Z) (r : Z) :
  afterLastNewline (rs ++ [r]) =
  if r =? 10 then [] else afterLastNewline rs ++ [r].
Proof.
  induction rs as [|a t IH]; cbn [afterLastNewline app existsb].
  - destruct (r =? 10); reflexivity.
  - rewrite existsb_app. cbn [existsb]. rewrite orb_false_r.
    rewrite (Z.eqb_sym 10 r), IH.
    destruct (r =? 10); [rewrite orb_true_r; reflexivity|].
    rewrite orb_false_r.
    destruct (existsb (Z.eqb 10) t); [reflexivity|].
    destruct (a =? 10); reflexivity.
Qed.

Lemma positionAfter_fresh (rs : list Z) :
  positionAfter rs (1, 1) = (1 + newlines rs, 1 + len (afterLastNewline rs)).
Proof.
  induction rs as [|r rs IH] using rev_ind; [reflexivity|].
  rewrite positionAfter_snoc, IH, newlines_snoc, afterLastNewline_snoc.
  unfold advancePos, len. cbn [fst snd].
  destruct (r =? 10); [f_equal; lia|].
  rewrite length_app. cbn [length]. f_equal; lia.
Qed.

Section SequenceFacts.

Context {R : Type} `{Reader R}.
Implicit Types c : RuneCursor R.

Lemma advance_frame (n : Z) c :
  buf (snd (Advance n c)) = buf c /\
  buflen (snd (Advance n c)) = buflen c /\
  bufpos (snd (Advance n c)) = bufpos c /\
  rabuflen (snd (Advance n c)) <= rabuflen c /\
  exists k : nat, rabuf (snd (Advance n c)) = skipn k (rabuf c).
Proof.
  pose proof (advanceLoop_spec (Z.to_nat n) (rabuf c) c) as Ha.
  cbn zeta in Ha. destruct Ha as (_ & _ & Hl & _ & Hb & Hbl & Hbp & Hq).
  unfold Advance. repeat split; try assumption.
  - rewrite Hl. unfold len. lia.
  - destruct (Z.to_nat n <=? length (rabuf c))%nat; destruct Hq as [_ Hq].
    + exists (Z.to_nat n). assumption.
    + exists 0%nat. assumption.
Qed.


Lemma exec_keeps_collapsed (o : op) c c' :
  collapsed c -> exec o c = Ok c' ->
  collapsed c' /\ rabuflen c' <= rabuflen c.
Proof.
  intros Hcol. destruct o as [| |n|n|s|s|]; cbn [exec]; intros E.
  - inv_bind E. destruct a as [v c1]. inversion E; subst. clear E.
    apply Cur_inv in E0.
    destruct E0 as (e & c1 & Ef & [(He & _ & ->)|(-> & h & t & Hq & _ & ->)]);
      destruct (fill_keeps_collapsed _ _ _ _ Hcol Ef) as (Hc1 & _ & Hl1 & _).
    + split; [assumption | lia].
    + destruct (advance_frame 1 c1) as (Hb & Hbl & Hbp & Hl & _).
      destruct Hc1 as (? & ? & ?). unfold collapsed.
      repeat split; congruence || lia.
  - inv_bind E. destruct a as [v c1]. inversion E; subst. clear E.
    apply PeekN_inv in E0. destruct E0 as (e & Ef & _).
    destruct (fill_keeps_collapsed _ _ _ _ Hcol Ef) as (Hc1 & _ & Hl1 & _).
    split; [assumption | lia].
  - inv_bind E. destruct a as [v c1]. inversion E; subst. clear E.
    apply PeekN_inv in E0. destruct E0 as (e & Ef & _).
    destruct (fill_keeps_collapsed _ _ _ _ Hcol Ef) as (Hc1 & _ & Hl1 & _).
    split; [assumption | lia].
  - inversion E; subst. clear E.
    destruct (advance_frame n c) as (Hb & Hbl & Hbp & Hl & _).
    destruct Hcol as (? & ? & ?). unfold collapsed.
    repeat split; congruence || lia.
  - inv_bind E. destruct a as [b c1]. inversion E; subst. clear E.
    apply hasPrefix_spec in E0. destruct E0 as (e & c1 & Ef & _ & Hcs).
    rewrite andb_false_r in Hcs. subst c1.
    destruct (fill_keeps_collapsed _ _ _ _ Hcol Ef) as (Hc1 & _ & Hl1 & _).
    split; [assumption | lia].
  - inv_bind E. destruct a as [b c1]. inversion E; subst. clear E.
    apply hasPrefix_spec in E0. destruct E0 as (e & c1 & Ef & _ & Hcs).
    destruct (fill_keeps_collapsed _ _ _ _ Hcol Ef) as (Hc1 & _ & Hl1 & _).
    destruct b; cbn [andb] in Hcs.
    + destruct Hcs as (m & _ & _ & _ & ->).
      destruct Hc1 as (? & ? & ?). unfold collapsed. cbn.
      repeat split; congruence || lia.
    + subst c1. split; [assumption | lia].
  - inv_bind E. destruct a as [b c1]. inversion E; subst. clear E.
    apply Done_inv in E0. destruct E0 as (e & Ef & _).
    destruct (fill_keeps_collapsed _ _ _ _ Hcol Ef) as (Hc1 & _ & Hl1 & _).
    split; [assumption | lia].
Qed.

Lemma run_keeps_collapsed (ops : list op) :
  forall c (tr : list Z) c',
    collapsed c -> run ops c = Ok (tr, c') ->
    collapsed c' /\ rabuflen c' <= rabuflen c.
Proof.
  induction ops as [|o ops IH]; intros c tr c' Hcol E; cbn [run] in E.
  - inversion E; subst. split; [assumption | lia].
  - inv_bind E. rename a into c1. inv_bind E. destruct a as [tr1 c2].
    inversion E; subst. clear E.
    destruct (exec_keeps_collapsed _ _ _ Hcol E0) as [Hc1 Hl1].
    destruct (IH _ _ _ Hc1 E1) as [Hc2 Hl2].
    split; [assumption | lia].
Qed.







End SequenceFacts.

(** ** Facts about U+FFFD and repeated peeks *)

Section PeekFacts.

Context {R : Type} `{Reader R}.
Implicit Types c : RuneCursor R.




End PeekFacts.

(** ** Facts about decoding a whole string *)

Lemma nodesFrom_fuel2 (f1 : nat) :
  forall (f2 : nat) (s : list byte),
    (length s <= f1)%nat -> (length s <= f2)%nat ->
    nodesFrom f1 s = nodesFrom f2 s.
Proof.
  induction f1 as [|f1 IH]; intros f2 s H1 H2.
  - destruct s; [destruct f2; reflexivity | simpl in H1; lia].
  - destruct s as [|b s]; [destruct f2; reflexivity|].
    destruct f2 as [|f2]; [simpl in H2; lia|].
    cbn [nodesFrom]. cbn zeta. f_equal.
    assert (Hw : 1 <= snd (utf8.DecodeRune (b :: s)) <= 4)
      by (apply utf8_DecodeRune_width_any; discriminate).
    apply IH; rewrite length_skipn; simpl length in *; lia.
Qed.

Lemma nodes_cons (s : list byte) :
  s <> [] ->
  nodes s =
  {| val := fst (utf8.DecodeRune s); width := snd (utf8.DecodeRune s) |}
    :: nodes (skipn (Z.to_nat (snd (utf8.DecodeRune s))) s).
Proof.
  intros Hs. destruct s as [|b s]; [congruence|].
  unfold nodes at 1. cbn [length nodesFrom]. cbn zeta. f_equal.
  apply nodesFrom_fuel2; [|lia].
  assert (Hw : 1 <= snd (utf8.DecodeRune (b :: s)) <= 4)
    by (apply utf8_DecodeRune_width_any; discriminate).
  rewrite length_skipn. simpl length. lia.
Qed.

Lemma map_val_nodesFrom (fuel : nat) :
  forall s : list byte, map val (nodesFrom fuel s) = utf8.runesFrom fuel s.
Proof.
  induction fuel as [|fuel IH]; intros [|b s]; try reflexivity.
  cbn [nodesFrom utf8.runesFrom map val]. cbn zeta. cbn [map val].
  f_equal. apply IH.
Qed.

Lemma map_val_nodes (s : list byte) : map val (nodes s) = utf8.runes s.
Proof. apply map_val_nodesFrom. Qed.

Lemma decodable_cons (s : list byte) :
  s <> [] -> decodable s ->
  fst (utf8.DecodeRune s) <> utf8.RuneError /\
  decodable (skipn (Z.to_nat (snd (utf8.DecodeRune s))) s).
Proof.
  unfold decodable. intros Hs Hd. rewrite (runes_cons s Hs) in Hd.
  inversion Hd; subst. split; assumption.
Qed.

Lemma skipn_app_le {A : Type} (k : nat) (a b : list A) :
  (k <= length a)%nat -> skipn k (a ++ b) = skipn k a ++ b.
Proof.
  intros Hk. rewrite skipn_app.
  replace (k - length a)%nat with 0%nat by lia. reflexivity.
Qed.

Lemma runes_app_fuel (fuel : nat) :
  forall a b : list byte,
    (length a <= fuel)%nat -> decodable a ->
    utf8.runes (a ++ b) = utf8.runes a ++ utf8.runes b.
Proof.
  induction fuel as [|fuel IH]; intros a b Hf Hd.
  - destruct a; [reflexivity | simpl in Hf; lia].
  - destruct a as [|x a]; [reflexivity|].
    assert (Hne : x :: a <> []) by discriminate.
    destruct (decodable_cons _ Hne Hd) as [Hr Hd'].
    destruct (DecodeRune_width _ Hr) as [Hw1 Hw2].
    rewrite (runes_cons (x :: a) Hne).
    rewrite (runes_cons ((x :: a) ++ b)) by discriminate.
    rewrite (DecodeRune_app _ b Hr).
    rewrite skipn_app_le by lia.
    rewrite IH; [reflexivity | | assumption].
    rewrite length_skipn. simpl length in *. lia.
Qed.

Lemma runes_app (a b : list byte) :
  decodable a -> utf8.runes (a ++ b) = utf8.runes a ++ utf8.runes b.
Proof. apply (runes_app_fuel (length a)). lia. Qed.

Lemma runes_concat (chunks : list (list byte)) :
  Forall decodable chunks ->
  utf8.runes (concat chunks) = concat (map utf8.runes chunks).
Proof.
  induction 1 as [|ch rest Hd _ IH]; [reflexivity|].
  cbn [concat map]. rewrite runes_app by assumption. rewrite IH. reflexivity.
Qed.

Section WholeStringFacts.

Context {R : Type} `{Reader R}.
Implicit Types c : RuneCursor R.

(** Decoding a stretch of the buffer that holds a decodable string turns
    all of it into nodes and stops at its end, whatever bytes follow. *)
Lemma decodeLoop_decodable (fuel : nat) :
  forall (s : list byte) (last : bool) c (pre post : list byte),
    decodable s ->
    buf c = pre ++ s ++ post ->
    bufpos c = len pre ->
    buflen c = len pre + len s ->
    (length s <= fuel)%nat ->
    exists c',
      decodeLoop fuel last c = Ok (None, c') /\
      bufpos c' = buflen c /\
      rabuflen c' = rabuflen c + len (nodes s) /\
      rabuf c' = (if last then rabuf c ++ nodes s
                  else match nodes s with [] => rabuf c | _ => nodes s end).
Proof.
  induction fuel as [|fuel IH]; intros s last c pre post Hd Hb Hp Hl Hf.
  - destruct s; [|simpl in Hf; lia].
    exists c. rewrite decodeLoop_done by (unfold len in *; simpl in *; lia).
    unfold len in *. simpl in *.
    repeat split; try lia. destruct last; [rewrite app_nil_r|]; reflexivity.
  - destruct s as [|x s].
    { exists c. rewrite decodeLoop_done by (unfold len in *; simpl in *; lia).
      unfold len in *. simpl in *.
      repeat split; try lia. destruct last; [rewrite app_nil_r|]; reflexivity. }
    assert (Hne : x :: s <> []) by discriminate.
    destruct (decodable_cons _ Hne Hd) as [Hr Hd'].
    destruct (DecodeRune_width _ Hr) as [Hw1 Hw2].
    cbn [decodeLoop].
    replace (bufpos c <? buflen c) with true
      by (unfold len in *; simpl length in *; lia).
    unfold sliceFrom.
    replace ((0 <=? bufpos c) && (bufpos c <=? len (buf c))) with true
      by (rewrite Hb; unfold len in *; rewrite !length_app; lia).
    cbn [bind].
    assert (Hskip : skipn (Z.to_nat (bufpos c)) (buf c) = (x :: s) ++ post).
    { rewrite Hb, Hp. unfold len. rewrite Nat2Z.id.
      rewrite skipn_app, skipn_all, Nat.sub_diag. reflexivity. }
    rewrite Hskip. rewrite (DecodeRune_app _ post Hr).
    replace (fst (utf8.DecodeRune (x :: s)) =? utf8.RuneError) with false by lia.
    set (w := snd (utf8.DecodeRune (x :: s))) in *.
    set (r := fst (utf8.DecodeRune (x :: s))) in *.
    set (cur := {| val := r; width := w |}).
    set (c2 := set_rabuf _ _).
    destruct (IH (skipn (Z.to_nat w) (x :: s)) true c2
                 (pre ++ firstn (Z.to_nat w) (x :: s)) post Hd')
      as (c' & E & Hp' & Hl' & Hq').
    + subst c2. cbn [buf set_rabuf set_rabuflen set_bufpos]. rewrite Hb.
      rewrite <- app_assoc. f_equal. rewrite app_assoc.
      rewrite firstn_skipn. reflexivity.
    + subst c2. cbn [bufpos set_rabuf set_rabuflen set_bufpos]. rewrite Hp.
      unfold len in *. rewrite length_app, length_firstn. lia.
    + subst c2. cbn [buflen set_rabuf set_rabuflen set_bufpos]. rewrite Hl.
      unfold len in *. rewrite length_app, length_firstn, length_skipn. lia.
    + rewrite length_skipn. simpl length in *. lia.
    + exists c'. split; [exact E|].
      rewrite (nodes_cons (x :: s) Hne). fold w r cur.
      subst c2. cbn [buflen rabuflen rabuf set_rabuf set_rabuflen set_bufpos] in *.
      split; [assumption|]. split.
      * rewrite Hl'. unfold len. cbn [length]. lia.
      * rewrite Hq'. destruct last; [rewrite <- app_assoc|]; reflexivity.
Qed.

Lemma Cur_queued (h : runebuf) (t : list runebuf) c :
  rabuf c = h :: t -> 1 <= rabuflen c ->
  Cur c = Ok (val h, set_rabuf t (consumeNode h c)).
Proof.
  intros Hq Hl. unfold Cur, fillRuneBuffer.
  replace (rabuflen c >=? 1) with true by lia.
  cbn [bind isErr]. unfold Advance. rewrite Hq. reflexivity.
Qed.

Lemma consumeNode_frame (h : runebuf) c :
  buf (consumeNode h c) = buf c /\ buflen (consumeNode h c) = buflen c /\
  bufpos (consumeNode h c) = bufpos c /\ in_ (consumeNode h c) = in_ c /\
  rabuflen (consumeNode h c) = rabuflen c - 1.
Proof. unfold consumeNode. destruct (val h =? 10); repeat split. Qed.

(** As many calls of [Cur] as there are nodes, when the count is right,
    return the runes of the nodes and read nothing. *)
Lemma curN_queued (q : list runebuf) :
  forall c,
    rabuf c = q -> rabuflen c = len q ->
    exists c',
      curN (length q) c = Ok (map val q, c') /\
      rabuf c' = [] /\ rabuflen c' = 0 /\
      buf c' = buf c /\ buflen c' = buflen c /\ bufpos c' = bufpos c /\
      in_ c' = in_ c.
Proof.
  induction q as [|h t IH]; intros c Hq Hl.
  - exists c. unfold len in Hl. simpl in Hl. repeat split; assumption.
  - cbn [curN length map].
    rewrite (Cur_queued h t c Hq) by (unfold len in Hl; simpl length in Hl; lia).
    cbn [bind].
    destruct (consumeNode_frame h c) as (Hb & Hbl & Hbp & Hi & Hr).
    destruct (IH (set_rabuf t (consumeNode h c))) as (c' & E & H1 & H2 & H3 & H4 & H5 & H6).
    + reflexivity.
    + cbn [rabuflen set_rabuf]. rewrite Hr, Hl. unfold len. simpl length. lia.
    + exists c'. rewrite E. cbn [bind].
      cbn [buf buflen bufpos in_ set_rabuf] in *.
      repeat split; congruence.
Qed.

Lemma curN_app (a b : nat) :
  forall c,
    curN (a + b) c =
    ('(l1, c1) <- curN a c ;;
     '(l2, c2) <- curN b c1 ;;
     Ok (l1 ++ l2, c2)).
Proof.
  induction a as [|a IH]; intros c; cbn [curN Nat.add bind].
  - destruct (curN b c) as [[l2 c2]| |]; reflexivity.
  - destruct (Cur c) as [[r c1]| |]; cbn [bind]; try reflexivity.
    rewrite IH.
    destruct (curN a c1) as [[l1 c2]| |]; cbn [bind]; try reflexivity.
    destruct (curN b c2) as [[l2 c3]| |]; reflexivity.
Qed.

Lemma Cur_after_fill c c1 :
  fillRuneBuffer 1 c = Ok (None, c1) -> 1 <= rabuflen c1 -> Cur c = Cur c1.
Proof.
  intros Ef Hl. unfold Cur. rewrite Ef. unfold fillRuneBuffer.
  replace (rabuflen c1 >=? 1) with true by lia. reflexivity.
Qed.

End WholeStringFacts.

(** ** The cursor over a source that delivers whole runes *)

Lemma len_repeat_x00 (n : Z) : 0 <= n -> len (repeat x00 (Z.to_nat n)) = n.
Proof. intros Hn. unfold len. rewrite repeat_length. lia. Qed.

Lemma capacity_pos (nn : list Z) : 0 < capacity nn.
Proof.
  unfold capacity. destruct nn as [|n0 nn]; cbn; [lia|].
  destruct (n0 <=? 0) eqn:E; lia.
Qed.

Lemma nodes_nonempty (s : list byte) : s <> [] -> nodes s <> [].
Proof. intros Hs. rewrite (nodes_cons s Hs). discriminate. Qed.

(** The fill of a drained cursor reads the next chunk into the front of
    the scratch buffer and decodes all of it. *)
Lemma fill_drained (cap : Z) (c : RuneCursor (list (list byte)))
      (ch : list byte) (rest : list (list byte)) :
  drained cap c (ch :: rest) ->
  ch <> [] -> len ch <= cap -> decodable ch ->
  exists c1,
    fillRuneBuffer 1 c = Ok (None, c1) /\
    rabuf c1 = nodes ch /\ rabuflen c1 = len (nodes ch) /\
    in_ c1 = rest /\ len (buf c1) = cap /\
    bufpos c1 = buflen c1 /\ 0 <= buflen c1 <= cap.
Proof.
  intros (Hq & Hql & Hin & Hcap & Hpos & Hbl) Hne Hlen Hd.
  unfold fillRuneBuffer. rewrite Hql.
  change (0 >=? 1) with false. change (Z.to_nat (1 - 0)) with 1%nat.
  cbn [fillLoop].
  rewrite decode_done by lia. cbn [bind]. rewrite Hql.
  change (0 >=? 1) with false.
  replace (bufpos c <? buflen c) with false by lia. cbn [bind].
  replace (bufpos c >? buflen c) with false by lia.
  replace (buflen c - bufpos c) with 0 by lia.
  unfold readInto. cbn [buf bufpos set_bufpos in_].
  unfold sliceFrom.
  replace ((0 <=? 0) && (0 <=? len (buf c))) with true by (unfold len; lia).
  cbn [bind Z.to_nat skipn]. rewrite Hin.
  cbn [Read chunkReader chunkRead].
  replace (length ch <=? length (buf c))%nat with true
    by (symmetry; apply Nat.leb_le; unfold len in *; lia).
  cbn [bind firstn app].
  assert (Hn0 : (len ch =? 0) = false).
  { destruct ch; [congruence | unfold len; simpl length; lia]. }
  rewrite Hn0. cbn [andb].
  set (c5 := set_buflen (len ch) _).
  assert (Hcopy : copy (buf c) ch = ch ++ skipn (length ch) (buf c)).
  { unfold copy. rewrite firstn_all2 by (unfold len in *; lia). reflexivity. }
  destruct (decodeLoop_decodable (length ch) ch false c5 []
              (skipn (length ch) (buf c)) Hd)
    as (c6 & E6 & Hp6 & Hl6 & Hq6).
  { subst c5. cbn. exact Hcopy. }
  { subst c5. reflexivity. }
  { subst c5. cbn. unfold len. simpl length. lia. }
  { lia. }
  assert (Efuel : Z.to_nat (buflen c5 - bufpos c5) = length ch).
  { subst c5. cbn [buflen bufpos set_buflen set_in set_buf set_bufpos].
    unfold len. lia. }
  unfold decodeIntoRuneBuffer at 1. rewrite Efuel, E6. cbn [bind].
  pose proof (decodeLoop_inv _ _ _ _ _ E6)
    as (Hb6 & Hbl6 & _ & Hi6 & _ & _ & _ & _).
  assert (Hq5 : rabuf c5 = []) by (subst c5; cbn; exact Hq).
  assert (Hql5 : rabuflen c5 = 0) by (subst c5; cbn; exact Hql).
  assert (Hnodes : 1 <= len (nodes ch)).
  { pose proof (nodes_nonempty ch Hne). destruct (nodes ch);
      [congruence | unfold len; simpl length; lia]. }
  rewrite Hql5 in Hl6.
  replace (0 =? rabuflen c6) with false by lia.
  cbn [fillLoop].
  rewrite decode_done by lia. cbn [bind].
  replace (rabuflen c6 >=? 1) with true by lia.
  exists c6. split; [reflexivity|].
  split. { rewrite Hq6, Hq5. destruct (nodes ch); reflexivity. }
  split; [lia|].
  split. { rewrite Hi6. subst c5. reflexivity. }
  split. { rewrite Hb6. subst c5. cbn [buf set_buflen set_in set_buf set_bufpos].
           rewrite Hcopy. unfold len in *. rewrite length_app, length_skipn. lia. }
  split; [lia|].
  rewrite Hbl6. subst c5. cbn [buflen set_buflen]. unfold len in *. lia.
Qed.

(** At the end of the source the fill fails, so [Done] says true. *)
Lemma Done_drained (cap : Z) (c : RuneCursor (list (list byte))) :
  drained cap c [] -> exists c', Done c = Ok (true, c').
Proof.
  intros (Hq & Hql & Hin & Hcap & Hpos & Hbl).
  unfold Done, fillRuneBuffer. rewrite Hql.
  change (0 >=? 1) with false. change (Z.to_nat (1 - 0)) with 1%nat.
  cbn [fillLoop].
  rewrite decode_done by lia. cbn [bind]. rewrite Hql.
  change (0 >=? 1) with false.
  replace (bufpos c <? buflen c) with false by lia. cbn [bind].
  replace (bufpos c >? buflen c) with false by lia.
  replace (buflen c - bufpos c) with 0 by lia.
  unfold readInto. cbn [buf bufpos set_bufpos in_].
  unfold sliceFrom.
  replace ((0 <=? 0) && (0 <=? len (buf c))) with true by (unfold len; lia).
  cbn [bind Z.to_nat skipn]. rewrite Hin.
  cbn [Read chunkReader chunkRead bind len length Z.of_nat Z.eqb andb isErr].
  eexists. reflexivity.
Qed.

Lemma curN_chunks (cap : Z) (chunks : list (list byte)) :
  Forall (fun ch => ch <> [] /\ len ch <= cap /\ decodable ch) chunks ->
  forall c : RuneCursor (list (list byte)),
    drained cap c chunks ->
    exists c',
      curN (length (utf8.runes (concat chunks))) c
      = Ok (utf8.runes (concat chunks), c') /\
      drained cap c' [].
Proof.
  induction 1 as [|ch rest (Hne & Hlen & Hd) Hrest IH]; intros c Hdr.
  - exists c. split; [reflexivity | assumption].
  - cbn [concat]. rewrite (runes_app ch (concat rest) Hd).
    rewrite length_app, curN_app.
    destruct (fill_drained cap c ch rest Hdr Hne Hlen Hd)
      as (c1 & Ef & Hq1 & Hql1 & Hin1 & Hcap1 & Hpos1 & Hbl1).
    pose proof (nodes_nonempty ch Hne) as Hnn.
    assert (Hcount : length (utf8.runes ch) = length (nodes ch)).
    { rewrite <- map_val_nodes, length_map. reflexivity. }
    assert (E1 : curN (length (utf8.runes ch)) c
                 = curN (length (utf8.runes ch)) c1).
    { rewrite Hcount. destruct (nodes ch) as [|h t] eqn:En; [congruence|].
      cbn [length curN]. rewrite (Cur_after_fill c c1 Ef); [reflexivity|].
      rewrite Hql1. unfold len. simpl length. lia. }
    rewrite E1, Hcount.
    destruct (curN_queued (nodes ch) c1 Hq1 Hql1)
      as (c2 & E2 & Hq2 & Hql2 & Hb2 & Hbl2 & Hbp2 & Hin2).
    rewrite E2. cbn [bind]. rewrite map_val_nodes.
    destruct (IH c2) as (c3 & E3 & Hdr3).
    { unfold drained. repeat split; try congruence; try lia. }
    rewrite E3. exists c3. split; [reflexivity | assumption].
Qed.

(** ** The properties of the cursor *)

Section Claims.

Context {R : Type} `{Reader R}.
Implicit Types c : RuneCursor R.

(** C6. [Advance(n)] walks over the first [n] nodes of the read-ahead
    list (all of them when the list is shorter) and applies the position
    rule, the byte count and the decrement of [rabuflen] for each; it
    reads nothing from the source and leaves the scratch buffer alone.
    With at least [n] nodes it returns no error and moves the head past
    them.  With fewer it returns the error "failed to pop enough runes",
    and the updates already made stay; the head pointer is not moved. *)
Theorem Advance_consumes_without_rollback :
  forall c (n : Z),
    let taken := firstn (Z.to_nat n) (rabuf c) in
    let c' := snd (Advance n c) in
    nread c' = nread c + sumWidths taken /\
    (LineNumber c', Column c') =
      positionAfter (map val taken) (LineNumber c, Column c) /\
    rabuflen c' = rabuflen c - len taken /\
    in_ c' = in_ c /\ buf c' = buf c /\
    buflen c' = buflen c /\ bufpos c' = bufpos c /\
    (if n <=? len (rabuf c)
     then fst (Advance n c) = None /\
          rabuf c' = skipn (Z.to_nat n) (rabuf c)
     else fst (Advance n c) = Some FailedToPop /\
          rabuf c' = rabuf c).
Proof.
  intros c n. cbn zeta. unfold Advance, LineNumber, Column.
  pose proof (advanceLoop_spec (Z.to_nat n) (rabuf c) c) as Hs.
  cbn zeta in Hs.
  destruct Hs as (Hn & Hp & Hl & Hi & Hb & Hbl & Hbp & Hq).
  repeat (split; [assumption|]).
  unfold len.
  destruct (n <=? Z.of_nat (length (rabuf c))) eqn:Hle.
  - replace (Z.to_nat n <=? length (rabuf c))%nat with true in Hq
      by (symmetry; apply Nat.leb_le; lia).
    assumption.
  - replace (Z.to_nat n <=? length (rabuf c))%nat with false in Hq
      by (symmetry; apply Nat.leb_gt; lia).
    assumption.
Qed.

(** C7 (amended). A fill that fails leaves the scratch buffer collapsed
    ([buf] empty, [buflen] 0), and after every later sequence of calls the
    buffer is still collapsed and [rabuflen] has not grown.  From the
    failure on every call that needs more runes than [rabuflen] counts
    fails: [PeekN(n)] returns the sentinel when [rabuflen < n], [Cur] and
    [Peek] return it and [Done] returns true when [rabuflen < 1],
    [HasPrefix(s)] and [Consume(s)] return false when [rabuflen] is less
    than the number of runes of [s]. *)
Theorem collapsed_is_permanent :
  forall c0 (n0 : Z) (e : error) c (ops : list op) (tr : list Z) c',
    fillRuneBuffer n0 c0 = Ok (Some e, c) ->
    run ops c = Ok (tr, c') ->
    collapsed c /\ collapsed c' /\ rabuflen c' <= rabuflen c /\
    (forall n : Z, rabuflen c' < n ->
       exists c'', PeekN n c' = Ok (utf8.RuneError, c'')) /\
    (rabuflen c' < 1 ->
       (exists c'', Cur c' = Ok (utf8.RuneError, c'')) /\
       (exists c'', Peek c' = Ok (utf8.RuneError, c'')) /\
       (exists c'', Done c' = Ok (true, c''))) /\
    (forall s : list byte, rabuflen c' < utf8.RuneCountInString s ->
       (exists c'', HasPrefix s c' = Ok (false, c'')) /\
       (exists c'', Consume s c' = Ok (false, c''))).
Proof.
  intros c0 n0 e c ops tr c' Ef0 E.
  assert (Hcol : collapsed c).
  { apply fillRuneBuffer_inv in Ef0.
    destruct Ef0 as (_ & _ & _ & _ & _ & _ & Hfail).
    apply Hfail. discriminate. }
  destruct (run_keeps_collapsed ops c tr c' Hcol E) as [Hc' Hl'].
  split; [assumption|]. split; [assumption|]. split; [assumption|].
  assert (Hfill : forall n, rabuflen c' < n ->
                    exists e' c'', fillRuneBuffer n c' = Ok (Some e', c'')).
  { intros n Hn. destruct (fill_collapsed n c' Hc' Hn) as (e' & c'' & Ef & _).
    eauto. }
  split; [|split].
  - intros n Hn. destruct (Hfill n Hn) as (e' & c'' & Ef).
    exists c''. unfold PeekN. rewrite Ef. reflexivity.
  - intros Hn. destruct (Hfill 1 Hn) as (e' & c'' & Ef).
    unfold Cur, Peek, PeekN, Done. rewrite Ef. cbn [bind isErr].
    repeat split; exists c''; reflexivity.
  - intros s Hn. destruct (Hfill _ Hn) as (e' & c'' & Ef).
    unfold HasPrefix, Consume, hasPrefix. rewrite Ef. cbn [bind isErr].
    split; exists c''; reflexivity.
Qed.



End Claims.

(** C1 (amended). Let the source deliver the input [S] in reads that are
    not empty, fit in the scratch buffer and are each a decodable string:
    valid UTF-8 without U+FFFD, so that no read ends inside a rune.  Then
    as many calls of [Cur] as [S] has runes return exactly the runes of
    [S] in order, and after them [Done] returns true. *)
Theorem Cur_reproduces_aligned_input :
  forall (chunks : list (list byte)) (nn : list Z),
    Forall (fun ch => ch <> [] /\ len ch <= capacity nn /\ decodable ch)
           chunks ->
    exists c c' : RuneCursor (list (list byte)),
      curN (length (utf8.runes (concat chunks))) (NewRuneCursor chunks nn)
      = Ok (utf8.runes (concat chunks), c) /\
      Done c = Ok (true, c').
Proof.
  intros chunks nn Hch.
  destruct (curN_chunks (capacity nn) chunks Hch (NewRuneCursor chunks nn))
    as (c & E & Hdr).
  { pose proof (capacity_pos nn) as Hpos.
    unfold drained, NewRuneCursor. fold (capacity nn).
    cbn [rabuf rabuflen in_ buf bufpos buflen].
    rewrite len_repeat_x00 by lia. repeat split; lia. }
  destruct (Done_drained (capacity nn) c Hdr) as (c' & Ed).
  exists c, c'. split; assumption.
Qed.

(** ** The properties at concrete inputs *)

Lemma collapsed_is_permanent_witness :
  exists (c : RuneCursor (list byte)) (tr : list Z) (c' : RuneCursor (list byte)),
    fillRuneBuffer 1 (NewRuneCursor ([] : list byte) []) = Ok (Some io_EOF, c) /\
    run [OpCur; OpDone] c = Ok (tr, c') /\
    collapsed c /\ collapsed c' /\ rabuflen c' <= rabuflen c /\
    (forall n : Z, rabuflen c' < n ->
       exists c'', PeekN n c' = Ok (utf8.RuneError, c'')) /\
    (rabuflen c' < 1 ->
       (exists c'', Cur c' = Ok (utf8.RuneError, c'')) /\
       (exists c'', Peek c' = Ok (utf8.RuneError, c'')) /\
       (exists c'', Done c' = Ok (true, c''))) /\
    (forall s : list byte, rabuflen c' < utf8.RuneCountInString s ->
       (exists c'', HasPrefix s c' = Ok (false, c'')) /\
       (exists c'', Consume s c' = Ok (false, c''))).
Proof.
  eexists. eexists. eexists.
  split; [vm_compute; reflexivity|]. split; [vm_compute; reflexivity|].
  eapply (collapsed_is_permanent (NewRuneCursor ([] : list byte) []) 1 io_EOF
                                 _ [OpCur; OpDone]);
    vm_compute; reflexivity.
Defined.



Lemma Cur_reproduces_aligned_input_witness :
  Forall (fun ch => ch <> [] /\ len ch <= capacity [] /\ decodable ch)
         [["a"%byte; xc3; xa9]; [x0a; "b"%byte]] /\
  exists c c' : RuneCursor (list (list byte)),
    curN (length (utf8.runes (concat [["a"%byte; xc3; xa9]; [x0a; "b"%byte]])))
         (NewRuneCursor [["a"%byte; xc3; xa9]; [x0a; "b"%byte]] [])
    = Ok (utf8.runes (concat [["a"%byte; xc3; xa9]; [x0a; "b"%byte]]), c) /\
    Done c = Ok (true, c').
Proof.
  assert (Hch : Forall (fun ch => ch <> [] /\ len ch <= capacity [] /\ decodable ch)
                       [["a"%byte; xc3; xa9]; [x0a; "b"%byte]]).
  { repeat constructor; try discriminate; vm_compute; discriminate. }
  split; [exact Hch|].
  exact (Cur_reproduces_aligned_input _ [] Hch).
Defined.

(** C1, as stated, fails, at two inputs read from a [strings.Reader]
    with the default capacity of 40 bytes.  Over "a", U+FFFD, "b", which
    is valid UTF-8, the second call of [Cur] fails at the encoded U+FFFD
    and 'b' never comes.  Over 39 times "a" and then U+00E9, valid UTF-8
    whose last rune lies across the end of the first read, the 40th call
    of [Cur] returns U+FFFD where the string has U+00E9. *)
Lemma Cur_loses_runes :
  (utf8.runes str_a_FFFD_b = [97; 65533; 98] /\
   exists c : RuneCursor (list byte),
     curN 3 (NewRuneCursor str_a_FFFD_b [])
     = Ok ([97; utf8.RuneError; utf8.RuneError], c) /\
     collapsed c) /\
  (utf8.runes str_straddle = repeat 97 39 ++ [233] /\
   returned (curN 40 (NewRuneCursor str_straddle []))
   = Ok (repeat 97 39 ++ [utf8.RuneError])).
Proof.
  split; split; try (vm_compute; reflexivity).
  eexists. split; [vm_compute; reflexivity|].
  unfold collapsed. cbn. repeat split. lia.
Qed.

(** C2: the code at the failing input.  U+00E9 "x" delivered in one read
    comes out as U+00E9, "x"; delivered in two reads split inside U+00E9,
    or read through a scratch buffer of one byte, it comes out as two
    times U+FFFD. *)
Theorem split_read_breaks_decoding :
  returned (curN 2 (NewRuneCursor [str_eacute_x] [])) = Ok [233; 120] /\
  returned (curN 2 (NewRuneCursor [[xc3]; [xa9; "x"%byte]] []))
  = Ok [utf8.RuneError; utf8.RuneError] /\
  returned (curN 2 (NewRuneCursor str_eacute_x [1]))
  = Ok [utf8.RuneError; utf8.RuneError].
Proof. repeat split; vm_compute; reflexivity. Qed.

(** C3: the code at the failing inputs.  With a scratch buffer of one
    byte over "ab", [Peek] queues 'a'; the fill of the following
    [HasPrefix("ab")] decodes 'b' and overwrites the list head with it:
    'a' is gone, the list has one node and [rabuflen] says 2.  Over "abc",
    [Consume("ab")] removes two nodes and leaves [rabuflen] at 3. *)
Theorem queue_and_count_diverge :
  (exists c1 c2 : RuneCursor (list byte),
      Peek (NewRuneCursor str_ab [1]) = Ok (97, c1) /\
      rabuf c1 = [{| val := 97; width := 1 |}] /\ rabuflen c1 = 1 /\
      HasPrefix str_ab c1 = Ok (false, c2) /\
      rabuf c2 = [{| val := 98; width := 1 |}] /\ rabuflen c2 = 2) /\
  (exists c : RuneCursor (list byte),
      Consume str_ab (NewRuneCursor str_abc []) = Ok (true, c) /\
      rabuf c = [{| val := 99; width := 1 |}] /\ rabuflen c = 3).
Proof.
  split.
  - eexists. eexists. split; [vm_compute; reflexivity|].
    split; [reflexivity|]. split; [reflexivity|].
    split; [vm_compute; reflexivity|]. split; reflexivity.
  - eexists. split; [vm_compute; reflexivity|]. split; reflexivity.
Qed.

(** C4: the code at the failing input.  Over "a\nb", whose only line
    feed is its second rune, [Peek] queues the three runes.
    [Advance(4)] walks over all three and counts them, then fails and
    returns before it stores the new head: the three nodes stay queued,
    with line 2, column 2 and [rabuflen] 0.  [Advance(2)] walks over 'a'
    and the line feed a second time: line 3, column 1 and [rabuflen] -2,
    with 'b' still to come. *)
Theorem failed_Advance_counts_runes_twice :
  utf8.runes str_a_nl_b = [97; 10; 98] /\
  newlines (utf8.runes str_a_nl_b) = 1 /\
  exists c1 c2 c3 : RuneCursor (list byte),
    Peek (NewRuneCursor str_a_nl_b []) = Ok (97, c1) /\
    map val (rabuf c1) = [97; 10; 98] /\
    Advance 4 c1 = (Some FailedToPop, c2) /\
    rabuf c2 = rabuf c1 /\
    LineNumber c2 = 2 /\ Column c2 = 2 /\ rabuflen c2 = 0 /\
    Advance 2 c2 = (None, c3) /\
    map val (rabuf c3) = [98] /\
    LineNumber c3 = 3 /\ Column c3 = 1 /\ rabuflen c3 = -2.
Proof.
  split; [vm_compute; reflexivity|]. split; [vm_compute; reflexivity|].
  eexists. eexists. eexists.
  split; [vm_compute; reflexivity|]. split; [reflexivity|].
  split; [vm_compute; reflexivity|]. split; [reflexivity|].
  split; [reflexivity|]. split; [reflexivity|]. split; [reflexivity|].
  split; [vm_compute; reflexivity|]. split; [reflexivity|].
  split; [reflexivity|]. split; reflexivity.
Qed.

(** C5: the code at the failing input.  With a scratch buffer of one
    byte over "ab", [Peek] queues 'a'.  [HasPrefix("ab")] then returns
    false, although the stream is "ab", and so does [Consume("ab")]; the
    fill of either has put 'b' in the place of 'a' at the head of the
    list, so that the next rune [Cur] returns is 'b', where before the
    call it was 'a'.  Line and column have not moved. *)
Theorem failed_match_drops_queued_rune :
  exists c1 ca c2 cb c3 cc : RuneCursor (list byte),
    Peek (NewRuneCursor str_ab [1]) = Ok (97, c1) /\
    map val (rabuf c1) = [97] /\
    Cur c1 = Ok (97, ca) /\
    HasPrefix str_ab c1 = Ok (false, c2) /\
    map val (rabuf c2) = [98] /\
    Cur c2 = Ok (98, cb) /\
    Consume str_ab c1 = Ok (false, c3) /\
    map val (rabuf c3) = [98] /\
    Cur c3 = Ok (98, cc) /\
    (LineNumber c2, Column c2) = (LineNumber c1, Column c1) /\
    (LineNumber c3, Column c3) = (LineNumber c1, Column c1).
Proof.
  do 6 eexists.
  split; [vm_compute; reflexivity|]. split; [reflexivity|].
  split; [vm_compute; reflexivity|].
  split; [vm_compute; reflexivity|]. split; [reflexivity|].
  split; [vm_compute; reflexivity|].
  split; [vm_compute; reflexivity|]. split; [reflexivity|].
  split; [vm_compute; reflexivity|]. split; reflexivity.
Qed.

(** C7, as stated, fails: over "abc", [PeekN(5)] meets the end of the
    source and collapses the buffer; after that [Done] returns false and
    [Cur] returns 'a'. *)
Lemma collapsed_cursor_still_serves :
  exists c1 c2 c3 : RuneCursor (list byte),
    PeekN 5 (NewRuneCursor str_abc []) = Ok (utf8.RuneError, c1) /\
    collapsed c1 /\
    Done c1 = Ok (false, c2) /\
    Cur c1 = Ok (97, c3).
Proof.
  eexists. eexists. eexists. split; [vm_compute; reflexivity|].
  split; [unfold collapsed; cbn; repeat split; lia|].
  split; vm_compute; reflexivity.
Qed.

(** C9: the code at the failing inputs.  After [Consume("abc")] over
    "abc" the list is empty and [rabuflen] is 3, so [fillRuneBuffer(1)]
    returns success and [Cur] dereferences nil.  With a scratch buffer
    of one byte over "ab", [PeekN(2)] after [Peek] finds a list of one
    node behind a successful fill and steps off its end. *)
Theorem successful_fill_then_nil_dereference :
  (exists c : RuneCursor (list byte),
      Consume str_abc (NewRuneCursor str_abc []) = Ok (true, c) /\
      fillRuneBuffer 1 c = Ok (None, c) /\ rabuf c = [] /\
      Cur c = Panic NilDereference) /\
  (exists c c' : RuneCursor (list byte),
      Peek (NewRuneCursor str_ab [1]) = Ok (97, c) /\
      fillRuneBuffer 2 c = Ok (None, c') /\ length (rabuf c') = 1%nat /\
      PeekN 2 c = Panic NilDereference).
Proof.
  split.
  - eexists. split; [vm_compute; reflexivity|].
    split; [vm_compute; reflexivity|]. split; reflexivity.
  - eexists. eexists. split; [vm_compute; reflexivity|].
    split; [vm_compute; reflexivity|]. split; reflexivity.
Qed.


(** * Further properties of the code *)

(** ** Facts about the bounds of the scratch buffer *)

Lemma length_copy (dst src : list byte) :
  (length src <= length dst)%nat -> length (copy dst src) = length dst.
Proof.
  intros Hl. unfold copy. rewrite length_app, length_firstn, length_skipn. lia.
Qed.

Lemma peekWalk_cases (k : nat) :
  forall q : list runebuf,
    (exists v, peekWalk k q = Ok v) \/ peekWalk k q = Panic NilDereference.
Proof.
  induction k as [|k IH]; intros [|h t]; cbn [peekWalk]; eauto.
Qed.

Section BoundsFacts.

Context {R : Type} `{Reader R}.
Implicit Types c : RuneCursor R.

Lemma decodeLoop_ok (fuel : nat) :
  forall (last : bool) c,
    bufOK c -> (Z.to_nat (buflen c - bufpos c) <= fuel)%nat ->
    exists e c', decodeLoop fuel last c = Ok (e, c') /\ bufOK c'.
Proof.
  induction fuel as [|fuel IH]; intros last c (Hp & Hl) Hf; cbn [decodeLoop].
  - replace (bufpos c <? buflen c) with false by lia.
    exists None, c. split; [reflexivity | split; assumption].
  - destruct (bufpos c <? buflen c) eqn:Hlt;
      [|exists None, c; split; [reflexivity | split; assumption]].
    unfold sliceFrom.
    replace ((0 <=? bufpos c) && (bufpos c <=? len (buf c))) with true by lia.
    cbn [bind].
    destruct (fst (utf8.DecodeRune (skipn (Z.to_nat (bufpos c)) (buf c)))
              =? utf8.RuneError) eqn:Er.
    + exists (Some FailedToDecode), c. split; [reflexivity | split; assumption].
    + assert (Hr : fst (utf8.DecodeRune (skipn (Z.to_nat (bufpos c)) (buf c)))
                   <> utf8.RuneError) by lia.
      destruct (DecodeRune_width _ Hr) as [Hw1 Hw2].
      apply IH.
      * unfold bufOK. cbn. lia.
      * cbn. lia.
Qed.

Lemma decode_ok c :
  bufOK c -> exists e c', decodeIntoRuneBuffer c = Ok (e, c') /\ bufOK c'.
Proof. intros Hok. apply decodeLoop_ok; [assumption | lia]. Qed.

Lemma readInto_ok c :
  bufOK c -> bufpos c <= buflen c ->
  exists n' err c',
    readInto c = Ok (n', err, c') /\
    len (buf c') = len (buf c) /\ 0 <= n' <= len (buf c) - bufpos c.
Proof.
  intros (Hp & Hl) Hle. unfold readInto, sliceFrom.
  replace ((0 <=? bufpos c) && (bufpos c <=? len (buf c))) with true by lia.
  cbn [bind].
  pose proof (Read_len (in_ c) (length (skipn (Z.to_nat (bufpos c)) (buf c))))
    as Hrl.
  destruct (Read (in_ c) (length (skipn (Z.to_nat (bufpos c)) (buf c))))
    as [[data err] r'].
  cbn [fst] in Hrl. rewrite length_skipn in Hrl.
  eexists _, err, _. split; [reflexivity|].
  cbn [buf set_in set_buf]. unfold len in *.
  rewrite length_app, length_firstn, length_copy
    by (rewrite length_skipn; lia).
  rewrite length_skipn. lia.
Qed.

(** With the indices in bounds the refill loop slices nothing out of
    bounds, and it keeps them in bounds. *)
Lemma fillLoop_ok (fuel : nat) :
  forall (n : Z) c,
    bufOK c -> (Z.to_nat (n - rabuflen c) < fuel)%nat ->
    exists e c',
      fillLoop fuel n (rabuflen c) c = Ok (e, c') /\ bufOK c' /\
      len (buf c') <= len (buf c).
Proof.
  induction fuel as [|fuel IH]; intros n c Hok Hf; [lia|].
  cbn [fillLoop].
  destruct (decode_ok c Hok) as (e1 & c1 & E1 & Hok1).
  rewrite E1. cbn [bind].
  apply decode_inv in E1.
  destruct E1 as (Hb1 & Hl1 & _ & _ & _ & _ & Hp1 & Hq1 & _).
  destruct (rabuflen c1 >=? n) eqn:Hge.
  { exists None, c1. split; [reflexivity|]. split; [assumption|].
    rewrite Hb1. lia. }
  destruct Hok1 as (Hpos1 & Hlen1).
  set (c2 := if bufpos c1 <? buflen c1
             then set_buf (copy (buf c1) (skipn (Z.to_nat (bufpos c1)) (buf c1))) c1
             else c1).
  assert (E2 : (if bufpos c1 <? buflen c1
                then src <- sliceFrom (buf c1) (bufpos c1) ;;
                     Ok (set_buf (copy (buf c1) src) c1)
                else Ok c1) = Ok c2).
  { subst c2. destruct (bufpos c1 <? buflen c1) eqn:Hlt; [|reflexivity].
    unfold sliceFrom.
    replace ((0 <=? bufpos c1) && (bufpos c1 <=? len (buf c1))) with true by lia.
    reflexivity. }
  rewrite E2. cbn [bind].
  assert (Hc2 : len (buf c2) = len (buf c1) /\ buflen c2 = buflen c1 /\
                bufpos c2 = bufpos c1 /\ rabuflen c2 = rabuflen c1).
  { subst c2. destruct (bufpos c1 <? buflen c1); [|repeat split].
    cbn [buf buflen bufpos rabuflen set_buf]. unfold len.
    rewrite length_copy by (rewrite length_skipn; lia). repeat split. }
  destruct Hc2 as (Hb2 & Hl2 & Hp2 & Hq2). clearbody c2. clear E2.
  set (c3 := if bufpos c2 >? buflen c2 then set_bufpos 0 c2
             else set_bufpos (buflen c2 - bufpos c2) c2).
  assert (Hc3 : buf c3 = buf c2 /\ buflen c3 = buflen c2 /\
                0 <= bufpos c3 <= buflen c3 /\ rabuflen c3 = rabuflen c2).
  { subst c3. destruct (bufpos c2 >? buflen c2) eqn:Hgt; cbn;
      repeat split; lia. }
  destruct Hc3 as (Hb3 & Hl3 & Hp3 & Hq3). clearbody c3.
  destruct (readInto_ok c3) as (n' & err & c4 & E4 & Hb4 & Hn');
    [unfold bufOK; rewrite Hb3; lia | lia |].
  rewrite E4. cbn [bind].
  apply readInto_inv in E4.
  destruct E4 as (Hl4 & Hp4 & _ & _ & _ & _ & Hq4 & _ & _).
  destruct ((n' =? 0) && isErr err).
  { eexists err, _. split; [reflexivity|].
    unfold bufOK, len. cbn. split; [|lia]. lia. }
  destruct (decode_ok (set_buflen n' c4)) as (e5 & c5 & E5 & Hok5).
  { unfold bufOK. cbn. rewrite Hb3 in *. lia. }
  rewrite E5. cbn [bind].
  apply decode_inv in E5. cbn in E5.
  destruct E5 as (Hb5 & Hl5 & _ & _ & _ & _ & Hp5 & Hq5 & _).
  destruct (rabuflen c =? rabuflen c5) eqn:Hstall.
  { eexists (Some FailedToFill), _. split; [reflexivity|].
    unfold bufOK, len. cbn. split; [|lia]. destruct Hok5. lia. }
  destruct (IH n c5 Hok5) as (e & c' & E & Hok' & Hb'); [lia|].
  exists e, c'. split; [exact E|]. split; [assumption|].
  rewrite Hb5 in Hb'. cbn in Hb'. rewrite Hb3 in Hb4. rewrite Hb1 in Hb2. lia.
Qed.

Lemma fill_ok (n : Z) c :
  bufOK c ->
  exists e c',
    fillRuneBuffer n c = Ok (e, c') /\ bufOK c' /\ len (buf c') <= len (buf c).
Proof.
  intros Hok. unfold fillRuneBuffer. destruct (rabuflen c >=? n).
  - exists None, c. split; [reflexivity|]. split; [assumption | lia].
  - apply fillLoop_ok; [assumption | lia].
Qed.

Lemma advance_bufOK (n : Z) c :
  bufOK c ->
  bufOK (snd (Advance n c)) /\ buf (snd (Advance n c)) = buf c.
Proof.
  intros (Hp & Hl).
  destruct (advance_frame n c) as (Hb & Hbl & Hbp & _).
  unfold bufOK. rewrite Hb, Hbl, Hbp. repeat split; lia.
Qed.

(** Every call on a cursor whose indices are in bounds returns, or
    panics on a nil node; it never slices out of bounds. *)
Lemma exec_ok (o : op) c :
  bufOK c ->
  exec o c = Panic NilDereference \/
  exists c', exec o c = Ok c' /\ bufOK c' /\ len (buf c') <= len (buf c).
Proof.
  intros Hok. destruct o as [| |n|n|s|s|]; cbn [exec].
  - unfold Cur. destruct (fill_ok 1 c Hok) as (e & c1 & E & Hok1 & Hb1).
    rewrite E. cbn [bind]. destruct (isErr e).
    + right. exists c1. cbn [bind]. auto.
    + destruct (rabuf c1) as [|h t]; [left; reflexivity|]. right.
      cbn [bind]. eexists. split; [reflexivity|].
      destruct (advance_bufOK 1 c1 Hok1) as [Ha Hb]. split; [assumption|].
      rewrite Hb. assumption.
  - unfold Peek, PeekN. destruct (fill_ok 1 c Hok) as (e & c1 & E & Hok1 & Hb1).
    rewrite E. cbn [bind]. destruct (isErr e).
    + right. exists c1. cbn [bind]. auto.
    + destruct (peekWalk_cases (Z.to_nat (1 - 1)) (rabuf c1)) as [(v & Ew)|Ew];
        rewrite Ew; cbn [bind]; [right; exists c1; auto | left; reflexivity].
  - unfold PeekN. destruct (fill_ok n c Hok) as (e & c1 & E & Hok1 & Hb1).
    rewrite E. cbn [bind]. destruct (isErr e).
    + right. exists c1. cbn [bind]. auto.
    + destruct (peekWalk_cases (Z.to_nat (n - 1)) (rabuf c1)) as [(v & Ew)|Ew];
        rewrite Ew; cbn [bind]; [right; exists c1; auto | left; reflexivity].
  - right. eexists. split; [reflexivity|].
    destruct (advance_bufOK n c Hok) as [Ha Hb]. split; [assumption|].
    rewrite Hb. lia.
  - unfold HasPrefix, hasPrefix.
    destruct (fill_ok (utf8.RuneCountInString s) c Hok)
      as (e & c1 & E & Hok1 & Hb1).
    rewrite E. cbn [bind]. right. destruct (isErr e); cbn [bind].
    + exists c1. auto.
    + pose proof (prefixWalk_spec (rabuf c1) s 0 (column c1) (lineno c1) false c1
                    ltac:(lia)) as Hw.
      destruct (prefixWalk (rabuf c1) s 0 (column c1) false c1) as [[|] c2].
      * destruct Hw as (m & rest & _ & _ & ->). exists c1. auto.
      * subst c2. exists c1. auto.
  - unfold Consume, hasPrefix.
    destruct (fill_ok (utf8.RuneCountInString s) c Hok)
      as (e & c1 & E & Hok1 & Hb1).
    rewrite E. cbn [bind]. right. destruct (isErr e); cbn [bind].
    + exists c1. auto.
    + pose proof (prefixWalk_spec (rabuf c1) s 0 (column c1) (lineno c1) true c1
                    ltac:(lia)) as Hw.
      destruct (prefixWalk (rabuf c1) s 0 (column c1) true c1) as [[|] c2].
      * destruct Hw as (m & rest & _ & _ & ->). eexists. split; [reflexivity|].
        split; [exact Hok1 | exact Hb1].
      * subst c2. exists c1. auto.
  - unfold Done. destruct (fill_ok 1 c Hok) as (e & c1 & E & Hok1 & Hb1).
    rewrite E. cbn [bind]. right. exists c1. auto.
Qed.

Lemma run_ok (ops : list op) :
  forall c,
    bufOK c ->
    run ops c = Panic NilDereference \/
    exists tr c', run ops c = Ok (tr, c') /\ bufOK c' /\
                  len (buf c') <= len (buf c).
Proof.
  induction ops as [|o ops IH]; intros c Hok; cbn [run].
  - right. exists [], c. split; [reflexivity|]. split; [assumption | lia].
  - destruct (exec_ok o c Hok) as [E|(c1 & E & Hok1 & Hb1)]; rewrite E;
      cbn [bind]; [left; reflexivity|].
    destruct (IH c1 Hok1) as [E1|(tr & c2 & E1 & Hok2 & Hb2)]; rewrite E1;
      cbn [bind]; [left; reflexivity|].
    right. eexists _, c2. split; [reflexivity|]. split; [assumption | lia].
Qed.

Lemma NewRuneCursor_bufOK (r : R) (nn : list Z) :
  bufOK (NewRuneCursor r nn) /\ len (buf (NewRuneCursor r nn)) = capacity nn.
Proof.
  pose proof (capacity_pos nn) as Hpos.
  unfold bufOK, NewRuneCursor. fold (capacity nn). cbn [buf bufpos buflen].
  rewrite len_repeat_x00 by lia. lia.
Qed.

End BoundsFacts.

(** X1. On a cursor made by [NewRuneCursor], over any source that keeps
    the contract of [io.Reader], no sequence of public calls slices the
    scratch buffer out of bounds: the calls return, or the sequence stops
    at a nil dereference.  When they return, [bufpos] is not negative,
    [buflen] lies between 0 and the length of [buf], and [buf] is no
    longer than the capacity the cursor was made with. *)
Theorem scratch_buffer_stays_in_bounds :
  forall (R : Type) (RD : Reader R) (r : R) (nn : list Z) (ops : list op),
    run ops (NewRuneCursor r nn) = Panic NilDereference \/
    exists (tr : list Z) (c : RuneCursor R),
      run ops (NewRuneCursor r nn) = Ok (tr, c) /\
      0 <= bufpos c /\ 0 <= buflen c <= len (buf c) /\
      len (buf c) <= capacity nn.
Proof.
  intros R RD r nn ops.
  destruct (NewRuneCursor_bufOK r nn) as [Hok Hcap].
  destruct (run_ok ops (NewRuneCursor r nn) Hok)
    as [E|(tr & c & E & (Hp & Hl) & Hb)]; [left; exact E|].
  right. exists tr, c. split; [exact E|]. repeat split; lia.
Qed.

(** ** Facts about one call of the decoding loop *)

Section DecodeFacts.

Context {R : Type} `{Reader R}.
Implicit Types c : RuneCursor R.

(** Where the decoding loop stops: at the end of the valid bytes, or in
    front of bytes that [utf8.DecodeRune] rejects. *)
Lemma decodeLoop_stuck (fuel : nat) :
  forall (last : bool) c e c',
    decodeLoop fuel last c = Ok (e, c') ->
    (e = None /\ buflen c' <= bufpos c') \/
    (e = Some FailedToDecode /\ bufpos c' < buflen c' /\
     0 <= bufpos c' <= len (buf c') /\
     fst (utf8.DecodeRune (skipn (Z.to_nat (bufpos c')) (buf c')))
     = utf8.RuneError).
Proof.
  induction fuel as [|fuel IH]; intros last c e c' E; cbn [decodeLoop] in E.
  - destruct (bufpos c <? buflen c) eqn:Hlt; [discriminate|].
    inversion E; subst. left. split; [reflexivity | lia].
  - destruct (bufpos c <? buflen c) eqn:Hlt.
    + inv_bind E. apply sliceFrom_Ok in E0. destruct E0 as [Hlo ->].
      destruct (fst (utf8.DecodeRune (skipn (Z.to_nat (bufpos c)) (buf c)))
                =? utf8.RuneError) eqn:Er.
      * inversion E; subst. right.
        split; [reflexivity|]. split; [lia|]. split; [lia|].
        apply Z.eqb_eq. exact Er.
      * apply IH in E. exact E.
    + inversion E; subst. left. split; [reflexivity | lia].
Qed.

(** A second call right after the first allocates nothing and ends the
    same way. *)
Lemma decode_idem c e c' :
  decodeIntoRuneBuffer c = Ok (e, c') ->
  decodeIntoRuneBuffer c' = Ok (e, c').
Proof.
  intros E. apply decodeLoop_stuck in E.
  destruct E as [(-> & Hle)|(-> & Hlt & Hb & Hr)].
  - apply decode_done. assumption.
  - unfold decodeIntoRuneBuffer.
    destruct (Z.to_nat (buflen c' - bufpos c')) as [|fuel] eqn:Hf; [lia|].
    cbn [decodeLoop]. replace (bufpos c' <? buflen c') with true by lia.
    unfold sliceFrom.
    replace ((0 <=? bufpos c') && (bufpos c' <=? len (buf c'))) with true by lia.
    cbn [bind]. rewrite Hr, Z.eqb_refl. reflexivity.
Qed.

(** The nodes of one call are the first nodes of the undecoded bytes, and
    [bufpos] moves by their widths. *)
Lemma decodeLoop_nodes (fuel : nat) :
  forall (last : bool) c e c',
    decodeLoop fuel last c = Ok (e, c') ->
    exists new more : list runebuf,
      nodes (skipn (Z.to_nat (bufpos c)) (buf c)) = new ++ more /\
      rabuflen c' = rabuflen c + len new /\
      bufpos c' = bufpos c + sumWidths new /\
      rabuf c' = (if last then rabuf c ++ new
                  else match new with [] => rabuf c | _ => new end).
Proof.
  induction fuel as [|fuel IH]; intros last c e c' E; cbn [decodeLoop] in E.
  - destruct (bufpos c <? buflen c) eqn:Hlt; [discriminate|].
    inversion E; subst. exists [], (nodes (skipn (Z.to_nat (bufpos c')) (buf c'))).
    split; [reflexivity|].
    split; [unfold len; cbn [length]; lia|].
    split; [unfold sumWidths; cbn [fold_right]; lia|].
    destruct last; [rewrite app_nil_r|]; reflexivity.
  - destruct (bufpos c <? buflen c) eqn:Hlt.
    + inv_bind E. apply sliceFrom_Ok in E0. destruct E0 as [Hlo ->].
      set (p := skipn (Z.to_nat (bufpos c)) (buf c)) in *.
      destruct (fst (utf8.DecodeRune p) =? utf8.RuneError) eqn:Er.
      * inversion E; subst. exists [], (nodes p).
        split; [reflexivity|].
        split; [unfold len; cbn [length]; lia|].
        split; [unfold sumWidths; cbn [fold_right]; lia|].
        destruct last; [rewrite app_nil_r|]; reflexivity.
      * assert (Hr : fst (utf8.DecodeRune p) <> utf8.RuneError) by lia.
        destruct (DecodeRune_width _ Hr) as [Hw1 Hw2].
        assert (Hne : p <> []).
        { intros Hp. rewrite Hp in Hr. apply Hr. reflexivity. }
        apply IH in E. cbn [buf bufpos rabuf rabuflen set_rabuf set_rabuflen
                                set_bufpos] in E.
        destruct E as (new & more & Hn & Hl & Hp & Hq).
        exists ({| val := fst (utf8.DecodeRune p);
                   width := snd (utf8.DecodeRune p) |} :: new), more.
        split.
        { rewrite (nodes_cons p Hne). cbn [app]. f_equal.
          rewrite <- Hn. f_equal. subst p. rewrite skipn_skipn. f_equal. lia. }
        split; [rewrite Hl; unfold len; cbn [length]; lia|].
        split; [rewrite Hp; unfold sumWidths; cbn [fold_right width]; lia|].
        rewrite Hq. destruct last; [rewrite <- app_assoc|]; reflexivity.
    + inversion E; subst. exists [], (nodes (skipn (Z.to_nat (bufpos c')) (buf c'))).
      split; [reflexivity|].
      split; [unfold len; cbn [length]; lia|].
      split; [unfold sumWidths; cbn [fold_right]; lia|].
      destruct last; [rewrite app_nil_r|]; reflexivity.
Qed.

End DecodeFacts.

(** X2. One call of [decodeIntoRuneBuffer] that returns: the nodes it
    allocates are the first nodes that decoding the bytes from [bufpos]
    on gives, none of them U+FFFD; [rabuflen] grows by their number and
    [bufpos] by the sum of their widths; if there are any they become
    the read-ahead list, otherwise the list stays.  The call ends with
    no error at or beyond [buflen], or with "failed to decode" in front
    of bytes that [utf8.DecodeRune] rejects, which it leaves undecoded;
    a second call right after it changes nothing and ends the same way. *)
Theorem decodeIntoRuneBuffer_decodes_a_prefix :
  forall (R : Type) (RD : Reader R) (c : RuneCursor R)
         (e : option error) (c' : RuneCursor R),
    decodeIntoRuneBuffer c = Ok (e, c') ->
    (exists new more : list runebuf,
        nodes (skipn (Z.to_nat (bufpos c)) (buf c)) = new ++ more /\
        Forall (fun h => val h <> utf8.RuneError) new /\
        rabuflen c' = rabuflen c + len new /\
        bufpos c' = bufpos c + sumWidths new /\
        rabuf c' = match new with [] => rabuf c | _ => new end) /\
    buf c' = buf c /\ buflen c' = buflen c /\ in_ c' = in_ c /\
    ((e = None /\ buflen c' <= bufpos c') \/
     (e = Some FailedToDecode /\ bufpos c' < buflen c' /\
      fst (utf8.DecodeRune (skipn (Z.to_nat (bufpos c')) (buf c')))
      = utf8.RuneError)) /\
    decodeIntoRuneBuffer c' = Ok (e, c').
Proof.
  intros R RD c e c' E.
  pose proof (decodeLoop_nodes _ _ _ _ _ E) as (new & more & Hn & Hl & Hp & Hq).
  pose proof (decodeLoop_inv _ _ _ _ _ E)
    as (Hb & Hbl & _ & Hi & _ & _ & _ & new' & Hclean & Hl' & Hq').
  assert (new' = new).
  { destruct new as [|a new], new' as [|a' new']; try reflexivity.
    - unfold len in *. cbn [length] in *. lia.
    - unfold len in *. cbn [length] in *. lia.
    - congruence. }
  subst new'.
  split.
  { exists new, more. split; [exact Hn|]. split; [exact Hclean|].
    split; [exact Hl|]. split; [exact Hp|]. exact Hq. }
  split; [assumption|]. split; [assumption|]. split; [assumption|].
  split; [|exact (decode_idem c e c' E)].
  destruct (decodeLoop_stuck _ _ _ _ _ E) as [Hs|(He & Hlt & _ & Hr)];
    [left; exact Hs | right; split; [exact He|]; split; [exact Hlt | exact Hr]].
Qed.

Lemma decodeIntoRuneBuffer_decodes_a_prefix_witness :
  exists c' : RuneCursor (list byte),
    decodeIntoRuneBuffer cursor_a_eacute_FF = Ok (Some FailedToDecode, c') /\
    (exists new more : list runebuf,
        nodes (skipn (Z.to_nat (bufpos cursor_a_eacute_FF))
                     (buf cursor_a_eacute_FF)) = new ++ more /\
        Forall (fun h => val h <> utf8.RuneError) new /\
        rabuflen c' = rabuflen cursor_a_eacute_FF + len new /\
        bufpos c' = bufpos cursor_a_eacute_FF + sumWidths new /\
        rabuf c' = match new with [] => rabuf cursor_a_eacute_FF | _ => new end) /\
    buf c' = buf cursor_a_eacute_FF /\ buflen c' = buflen cursor_a_eacute_FF /\
    in_ c' = in_ cursor_a_eacute_FF /\
    ((Some FailedToDecode = None /\ buflen c' <= bufpos c') \/
     (Some FailedToDecode = Some FailedToDecode /\ bufpos c' < buflen c' /\
      fst (utf8.DecodeRune (skipn (Z.to_nat (bufpos c')) (buf c')))
      = utf8.RuneError)) /\
    decodeIntoRuneBuffer c' = Ok (Some FailedToDecode, c').
Proof.
  assert (E : exists c', decodeIntoRuneBuffer cursor_a_eacute_FF
                         = Ok (Some FailedToDecode, c')).
  { eexists. vm_compute. reflexivity. }
  destruct E as [c' E]. exists c'. split; [exact E|].
  exact (decodeIntoRuneBuffer_decodes_a_prefix (list byte) bytesReader
           cursor_a_eacute_FF (Some FailedToDecode) c' E).
Defined.

(** ** Facts about the calls [Cur], [Peek] and [Done] *)

Lemma len_nil_inv {A : Type} (l : list A) : len l = 0 -> l = [].
Proof. destruct l; [reflexivity | unfold len; cbn [length]; lia]. Qed.

Section SimpleFacts.

Context {R : Type} `{Reader R}.
Implicit Types c : RuneCursor R.

Lemma decode_counted c e c' :
  decodeIntoRuneBuffer c = Ok (e, c') ->
  rabuf c = [] -> rabuflen c = 0 ->
  rabuflen c' = len (rabuf c').
Proof.
  intros E Hq Hl. apply decodeLoop_inv in E.
  destruct E as (_ & _ & _ & _ & _ & _ & _ & new & _ & Hl' & Hq').
  rewrite Hl', Hq', Hl, Hq. destruct new; reflexivity.
Qed.

(** The refill for one rune keeps the count of the read-ahead list right
    when it starts from a right count. *)
Lemma fillLoop1_counted (fuel : nat) :
  forall c e c',
    fillLoop fuel 1 (rabuflen c) c = Ok (e, c') ->
    rabuflen c = len (rabuf c) ->
    (rabuf c = [] \/ exists e0, decodeIntoRuneBuffer c = Ok (e0, c)) ->
    rabuflen c' = len (rabuf c').
Proof.
  induction fuel as [|fuel IH]; intros c e c' E Hcnt Hstart;
    cbn [fillLoop] in E; [discriminate|].
  inv_bind E. destruct a as [e1 c1].
  assert (Hcnt1 : rabuflen c1 = len (rabuf c1)).
  { destruct Hstart as [Hnil|(e0 & E0')].
    - apply (decode_counted c e1 c1 E0 Hnil). rewrite Hcnt, Hnil. reflexivity.
    - rewrite E0' in E0. inversion E0; subst. assumption. }
  destruct (rabuflen c1 >=? 1) eqn:Hge.
  { inversion E; subst. assumption. }
  assert (Hl1 : rabuflen c1 = 0) by (unfold len in Hcnt1; lia).
  assert (Hq1 : rabuf c1 = []) by (apply len_nil_inv; lia).
  inv_bind E. rename a into c2.
  assert (Hc2 : rabuf c2 = rabuf c1 /\ rabuflen c2 = rabuflen c1).
  { destruct (bufpos c1 <? buflen c1).
    - inv_bind E1. inversion E1; subst. split; reflexivity.
    - inversion E1; subst. split; reflexivity. }
  destruct Hc2 as (Hq2 & Hl2). clear E1.
  set (c3 := if bufpos c2 >? buflen c2 then set_bufpos 0 c2
             else set_bufpos (buflen c2 - bufpos c2) c2) in *.
  assert (Hc3 : rabuf c3 = rabuf c2 /\ rabuflen c3 = rabuflen c2).
  { subst c3. destruct (bufpos c2 >? buflen c2); split; reflexivity. }
  destruct Hc3 as (Hq3 & Hl3). clearbody c3.
  inv_bind E. destruct a as [[n' err] c4].
  apply readInto_inv in E1.
  destruct E1 as (_ & _ & _ & _ & _ & Hq4 & Hl4 & _ & _).
  destruct ((n' =? 0) && isErr err).
  { inversion E; subst. cbn [rabuf rabuflen set_buflen set_buf]. congruence. }
  inv_bind E. destruct a as [e5 c5].
  pose proof (decode_idem _ _ _ E1) as Hidem.
  assert (Hcnt5 : rabuflen c5 = len (rabuf c5)).
  { apply (decode_counted _ _ _ E1); cbn [rabuf rabuflen set_buflen]; congruence. }
  apply decode_inv in E1. destruct E1 as (_ & _ & _ & _ & _ & _ & _ & Hmono & _).
  destruct (rabuflen c =? rabuflen c5) eqn:Hstall.
  { inversion E; subst. cbn [rabuf rabuflen set_buflen set_buf]. assumption. }
  apply (IH c5 e c' E Hcnt5). right. exists e5. exact Hidem.
Qed.

Lemma fill1_counted c e c' :
  fillRuneBuffer 1 c = Ok (e, c') ->
  rabuflen c = len (rabuf c) ->
  rabuflen c' = len (rabuf c').
Proof.
  unfold fillRuneBuffer. destruct (rabuflen c >=? 1) eqn:Hge; intros E Hcnt.
  - inversion E; subst. assumption.
  - apply (fillLoop1_counted _ c e c' E Hcnt). left.
    apply len_nil_inv. unfold len in *. lia.
Qed.

(** [Cur], [Peek] and [Done] on a cursor with in-bounds indices and a
    right count return, and keep both. *)
Lemma exec_simple (o : op) c :
  isSimple o = true -> bufOK c -> rabuflen c = len (rabuf c) ->
  exists c', exec o c = Ok c' /\ bufOK c' /\ rabuflen c' = len (rabuf c').
Proof.
  intros Ho Hok Hcnt.
  destruct (fill_ok 1 c Hok) as (e & c1 & E & Hok1 & _).
  pose proof (fill1_counted c e c1 E Hcnt) as Hcnt1.
  pose proof (fillRuneBuffer_inv 1 c e c1 E) as (_ & _ & _ & _ & _ & Hsucc & _).
  destruct o; try discriminate; cbn [exec].
  - unfold Cur. rewrite E. cbn [bind]. destruct e as [e|]; cbn [isErr bind].
    + exists c1. auto.
    + specialize (Hsucc eq_refl).
      destruct (rabuf c1) as [|h t] eqn:Hq;
        [unfold len in Hcnt1; cbn [length] in Hcnt1; lia|].
      cbn [bind]. eexists. split; [reflexivity|].
      destruct (advance_bufOK 1 c1 Hok1) as [Ha _]. split; [exact Ha|].
      unfold Advance. rewrite Hq. change (Z.to_nat 1) with 1%nat.
      cbn [advanceLoop snd rabuflen rabuf set_rabuf].
      destruct (consumeNode_frame h c1) as (_ & _ & _ & _ & Hr).
      rewrite Hr, Hcnt1. unfold len. cbn [length]. lia.
  - unfold Peek, PeekN. rewrite E. cbn [bind].
    destruct e as [e|]; cbn [isErr bind].
    + exists c1. auto.
    + specialize (Hsucc eq_refl).
      destruct (rabuf c1) as [|h t] eqn:Hq;
        [unfold len in Hcnt1; cbn [length] in Hcnt1; lia|].
      change (Z.to_nat (1 - 1)) with 0%nat. cbn [peekWalk bind].
      exists c1. rewrite Hq. auto.
  - unfold Done. rewrite E. cbn [bind]. exists c1. auto.
Qed.

Lemma run_simple (ops : list op) :
  forall c,
    forallb isSimple ops = true -> bufOK c -> rabuflen c = len (rabuf c) ->
    exists tr c', run ops c = Ok (tr, c') /\ rabuflen c' = len (rabuf c').
Proof.
  induction ops as [|o ops IH]; intros c Hs Hok Hcnt; cbn [run].
  - exists [], c. split; [reflexivity | assumption].
  - cbn [forallb] in Hs. apply andb_prop in Hs. destruct Hs as [Ho Hs].
    destruct (exec_simple o c Ho Hok Hcnt) as (c1 & E & Hok1 & Hcnt1).
    rewrite E. cbn [bind].
    destruct (IH c1 Hs Hok1 Hcnt1) as (tr & c2 & E2 & Hcnt2).
    rewrite E2. cbn [bind]. eexists _, c2. split; [reflexivity | assumption].
Qed.

End SimpleFacts.

(** X3. A caller that uses only [Cur], [Peek] and [Done] on a cursor
    made by [NewRuneCursor] never meets a panic: over any source that
    keeps the contract of [io.Reader] every such sequence of calls
    returns, and [rabuflen] then equals the number of nodes of the
    read-ahead list. *)
Theorem Cur_Peek_Done_never_panic :
  forall (R : Type) (RD : Reader R) (r : R) (nn : list Z) (ops : list op),
    forallb isSimple ops = true ->
    exists (tr : list Z) (c : RuneCursor R),
      run ops (NewRuneCursor r nn) = Ok (tr, c) /\
      rabuflen c = len (rabuf c).
Proof.
  intros R RD r nn ops Hs.
  destruct (NewRuneCursor_bufOK r nn) as [Hok _].
  apply (run_simple ops (NewRuneCursor r nn) Hs Hok). reflexivity.
Qed.

Lemma Cur_Peek_Done_never_panic_witness :
  forallb isSimple [OpPeek; OpCur; OpDone; OpCur; OpCur; OpCur; OpDone] = true /\
  exists (tr : list Z) (c : RuneCursor (list byte)),
    run [OpPeek; OpCur; OpDone; OpCur; OpCur; OpCur; OpDone]
        (NewRuneCursor str_abc [2]) = Ok (tr, c) /\
    rabuflen c = len (rabuf c).
Proof.
  split; [reflexivity|].
  exact (Cur_Peek_Done_never_panic (list byte) bytesReader str_abc [2]
           [OpPeek; OpCur; OpDone; OpCur; OpCur; OpCur; OpDone] eq_refl).
Defined.

(** ** Facts about the turns of the refill loop *)

Section TurnFacts.

Context {R : Type} `{Reader R}.
Implicit Types c : RuneCursor R.

(** More turns than the loop takes change nothing. *)
Lemma fillLoop_more_fuel (fuel : nat) :
  forall (n prev : Z) c (extra : nat),
    fillLoop fuel n prev c <> OutOfFuel ->
    fillLoop (fuel + extra) n prev c = fillLoop fuel n prev c.
Proof.
  induction fuel as [|fuel IH]; intros n prev c extra Hne;
    [cbn [fillLoop] in Hne; congruence|].
  cbn [Nat.add fillLoop] in *.
  destruct (decodeIntoRuneBuffer c) as [[e1 c1]| |]; cbn [bind] in *;
    try reflexivity.
  destruct (rabuflen c1 >=? n); [reflexivity|].
  match goal with
  | |- context [bind ?m _] => destruct m as [c2| |]
  end; cbn [bind] in *; try reflexivity.
  match goal with
  | |- context [bind (readInto ?x) _] => destruct (readInto x) as [[[n' err] c4]| |]
  end; cbn [bind] in *; try reflexivity.
  destruct ((n' =? 0) && isErr err); [reflexivity|].
  destruct (decodeIntoRuneBuffer (set_buflen n' c4)) as [[e5 c5]| |];
    cbn [bind] in *; try reflexivity.
  destruct (prev =? rabuflen c5); [reflexivity|].
  apply IH. exact Hne.
Qed.

(** The error of a failed refill is the error the source gave with a
    read of no byte, or the stall error. *)
Lemma fillLoop_error (fuel : nat) :
  forall (n prev : Z) c (e : error) c',
    fillLoop fuel n prev c = Ok (Some e, c') ->
    e = FailedToFill \/
    exists (r : R) (m : nat) (r' : R), Read r m = ([], Some e, r').
Proof.
  induction fuel as [|fuel IH]; intros n prev c e c' E; cbn [fillLoop] in E;
    [discriminate|].
  inv_bind E. destruct a as [e1 c1].
  destruct (rabuflen c1 >=? n); [discriminate|].
  inv_bind E. rename a into c2.
  match type of E with
  | context [readInto ?x] => set (c3 := x) in *
  end.
  inv_bind E. destruct a as [[n' err] c4].
  destruct ((n' =? 0) && isErr err) eqn:Hfatal.
  { inversion E; subst. right.
    unfold readInto in E2. inv_bind E2.
    destruct (Read (in_ c3) (length a)) as [[data err0] r'] eqn:Er.
    inversion E2; subst.
    destruct data as [|d data]; [|unfold len in Hfatal; cbn [length] in Hfatal; lia].
    exists (in_ c3), (length a), r'. exact Er. }
  inv_bind E. destruct a as [e5 c5].
  destruct (prev =? rabuflen c5).
  { inversion E; subst. left. reflexivity. }
  apply IH in E. exact E.
Qed.

End TurnFacts.

(** X4. The loop of [fillRuneBuffer] terminates for every source: when
    [rabuflen < n] it takes at most [n - rabuflen + 1] turns, since every
    turn that does not return raises [rabuflen]; giving the loop more
    turns does not change what it returns. *)
Theorem fillRuneBuffer_turns_are_bounded :
  forall (R : Type) (RD : Reader R) (n : Z) (c : RuneCursor R) (extra : nat),
    rabuflen c < n ->
    fillRuneBuffer n c <> OutOfFuel /\
    fillLoop (S (Z.to_nat (n - rabuflen c)) + extra) n (rabuflen c) c
    = fillRuneBuffer n c.
Proof.
  intros R RD n c extra Hlt.
  assert (Hfill : fillRuneBuffer n c
                  = fillLoop (S (Z.to_nat (n - rabuflen c))) n (rabuflen c) c).
  { unfold fillRuneBuffer. replace (rabuflen c >=? n) with false by lia.
    reflexivity. }
  split; [apply fillRuneBuffer_total|].
  rewrite Hfill. apply fillLoop_more_fuel. apply fillLoop_fuel. lia.
Qed.

Lemma fillRuneBuffer_turns_are_bounded_witness :
  (rabuflen (NewRuneCursor str_abc [1]) < 3) /\
  fillRuneBuffer 3 (NewRuneCursor str_abc [1]) <> OutOfFuel /\
  fillLoop (S (Z.to_nat (3 - rabuflen (NewRuneCursor str_abc [1]))) + 5) 3
           (rabuflen (NewRuneCursor str_abc [1])) (NewRuneCursor str_abc [1])
  = fillRuneBuffer 3 (NewRuneCursor str_abc [1]).
Proof.
  split; [reflexivity|].
  apply (fillRuneBuffer_turns_are_bounded (list byte) bytesReader 3
           (NewRuneCursor str_abc [1]) 5).
  reflexivity.
Defined.

(** X5. What [fillRuneBuffer(n)] returns.  With no error, [rabuflen] is
    at least [n].  With an error, [rabuflen] is below [n], the scratch
    buffer is collapsed, and the error is either the one the source
    returned together with a read of no byte, or "failed to fill read
    buffer": an error of [decodeIntoRuneBuffer] is never passed on.
    Line, column and [nread] are untouched and [rabuflen] never
    decreases. *)
Theorem fillRuneBuffer_outcomes :
  forall (R : Type) (RD : Reader R) (n : Z) (c : RuneCursor R)
         (e : option error) (c' : RuneCursor R),
    fillRuneBuffer n c = Ok (e, c') ->
    lineno c' = lineno c /\ column c' = column c /\ nread c' = nread c /\
    rabuflen c <= rabuflen c' /\
    match e with
    | None => n <= rabuflen c'
    | Some err =>
      rabuflen c' < n /\ buf c' = [] /\ buflen c' = 0 /\
      (err = FailedToFill \/
       exists (r : R) (m : nat) (r' : R), Read r m = ([], Some err, r'))
    end.
Proof.
  intros R RD n c e c' E.
  pose proof (fillRuneBuffer_inv n c e c' E)
    as (Hc & Hl & Hn & Hmono & _ & Hok & Hfail).
  split; [exact Hl|]. split; [exact Hc|]. split; [exact Hn|].
  split; [exact Hmono|].
  destruct e as [err|]; [|apply Hok; reflexivity].
  destruct (Hfail ltac:(discriminate)) as [(Hb & Hbl & _) Hlt].
  split; [exact Hlt|]. split; [exact Hb|]. split; [exact Hbl|].
  unfold fillRuneBuffer in E. destruct (rabuflen c >=? n); [discriminate|].
  apply (fillLoop_error _ _ _ _ _ _ E).
Qed.

Lemma fillRuneBuffer_outcomes_witness :
  exists c' : RuneCursor (list byte),
    fillRuneBuffer 5 (NewRuneCursor str_abc []) = Ok (Some io_EOF, c') /\
    lineno c' = 1 /\ column c' = 1 /\ nread c' = 0 /\
    0 <= rabuflen c' /\
    rabuflen c' < 5 /\ buf c' = [] /\ buflen c' = 0 /\
    (io_EOF = FailedToFill \/
     exists (r : list byte) (m : nat) (r' : list byte),
       Read r m = ([], Some io_EOF, r')).
Proof.
  assert (E : exists c', fillRuneBuffer 5 (NewRuneCursor str_abc [])
                         = Ok (Some io_EOF, c')).
  { eexists. vm_compute. reflexivity. }
  destruct E as [c' E]. exists c'. split; [exact E|].
  exact (fillRuneBuffer_outcomes (list byte) bytesReader 5
           (NewRuneCursor str_abc []) (Some io_EOF) c' E).
Defined.

(** ** Facts about what the matching walk accepts *)

Lemma countFrom_runesFrom (fuel : nat) :
  forall s : list byte,
    utf8.countFrom fuel s = len (utf8.runesFrom fuel s).
Proof.
  induction fuel as [|fuel IH]; intros [|b s]; try reflexivity.
  cbn [utf8.countFrom utf8.runesFrom]. cbn zeta. rewrite IH.
  unfold len. cbn [length snd]. lia.
Qed.

Lemma RuneCountInString_runes (s : list byte) :
  utf8.RuneCountInString s = len (utf8.runes s).
Proof. apply countFrom_runesFrom. Qed.

Lemma runes_nonempty (s : list byte) : s <> [] -> utf8.runes s <> [].
Proof. intros Hs. rewrite (runes_cons s Hs). discriminate. Qed.

Section WalkFacts.

Context {R : Type} `{Reader R}.
Implicit Types c : RuneCursor R.

(** A walk that matches has decoded all of [s] without an error. *)
Lemma prefixWalk_true_decodable (cur : list runebuf) :
  forall (s : list byte) (nl col : Z) (consume : bool) c,
    fst (prefixWalk cur s nl col consume c) = true ->
    s <> [] /\ decodable s.
Proof.
  induction cur as [|h next IH]; intros s nl col consume c;
    cbn [prefixWalk]; [discriminate|]. cbn zeta.
  unfold utf8.DecodeRuneInString.
  destruct (fst (utf8.DecodeRune s) =? utf8.RuneError) eqn:Er;
    [discriminate|].
  assert (Hs : s <> []).
  { intros ->. cbn in Er. unfold utf8.RuneError in Er. lia. }
  destruct (negb (val h =? fst (utf8.DecodeRune s))); [discriminate|].
  intros Ht. split; [exact Hs|].
  unfold decodable. rewrite (runes_cons s Hs). constructor; [lia|].
  destruct (len (skipn (Z.to_nat (snd (utf8.DecodeRune s))) s) =? 0) eqn:Hend.
  - apply Z.eqb_eq in Hend. apply len_nil_inv in Hend. rewrite Hend. constructor.
  - apply IH in Ht. apply Ht.
Qed.

(** A walk over a list that starts with the runes of a decodable,
    non-empty [s] matches. *)
Lemma prefixWalk_complete (cur : list runebuf) :
  forall (s : list byte) (nl col : Z) (consume : bool) c (rest : list Z),
    s <> [] -> decodable s ->
    map val cur = utf8.runes s ++ rest ->
    fst (prefixWalk cur s nl col consume c) = true.
Proof.
  induction cur as [|h next IH]; intros s nl col consume c rest Hs Hd Hm.
  - exfalso. apply (runes_nonempty s Hs).
    cbn [map] in Hm. symmetry in Hm. apply app_eq_nil in Hm. tauto.
  - cbn [prefixWalk]. cbn zeta. unfold utf8.DecodeRuneInString.
    destruct (decodable_cons s Hs Hd) as [Hr Hd'].
    rewrite (runes_cons s Hs) in Hm. cbn [map app] in Hm.
    inversion Hm as [[Hv Hm']].
    replace (val h =? utf8.RuneError) with false by lia.
    rewrite Z.eqb_refl. cbn [negb].
    destruct (len (skipn (Z.to_nat (snd (utf8.DecodeRune s))) s) =? 0) eqn:Hend;
      [reflexivity|].
    apply (IH _ _ _ _ _ rest); [|exact Hd'|exact Hm'].
    intros Hnil. rewrite Hnil in Hend. discriminate.
Qed.

End WalkFacts.

(** X6. When [HasPrefix(s)] returns true.  It returns true exactly when
    its fill succeeded, [s] is not empty, [s] decodes without error
    (valid UTF-8 without U+FFFD) and the read-ahead list starts with the
    runes of [s]; the fill asks for as many runes as [s] has.  So the
    empty string and every string with an invalid byte or an encoded
    U+FFFD are never a prefix. *)
Theorem HasPrefix_true_iff :
  forall (R : Type) (RD : Reader R) (c : RuneCursor R) (s : list byte)
         (b : bool) (c1 : RuneCursor R),
    HasPrefix s c = Ok (b, c1) ->
    utf8.RuneCountInString s = len (utf8.runes s) /\
    (b = true <->
     utf8.RuneCountInString s <= rabuflen c1 /\ s <> [] /\ decodable s /\
     exists rest : list Z, map val (rabuf c1) = utf8.runes s ++ rest).
Proof.
  intros R RD c s b c1 E. split; [apply RuneCountInString_runes|].
  unfold HasPrefix, hasPrefix in E. inv_bind E. destruct a as [e c0].
  pose proof (fillRuneBuffer_inv _ _ _ _ E0) as (_ & _ & _ & _ & _ & Hok & Hfail).
  destruct e as [e|]; cbn [isErr] in E.
  - inversion E; subst. destruct (Hfail ltac:(discriminate)) as [_ Hlt].
    split; [discriminate | intros (Hge & _); lia].
  - specialize (Hok eq_refl).
    pose proof (prefixWalk_spec (rabuf c0) s 0 (column c0) (lineno c0) false c0
                  ltac:(lia)) as Hspec.
    pose proof (prefixWalk_true_decodable (rabuf c0) s 0 (column c0) false c0)
      as Hdec.
    pose proof (prefixWalk_complete (rabuf c0) s 0 (column c0) false c0) as Hcomp.
    destruct (prefixWalk (rabuf c0) s 0 (column c0) false c0) as [b0 c0'].
    inversion E; subst b0 c0'. clear E. cbn [fst] in *.
    destruct b.
    + destruct Hspec as (m & rest & Hq & Hm & ->).
      destruct (Hdec eq_refl) as [Hs Hd].
      split; [intros _|reflexivity].
      split; [assumption|]. split; [assumption|]. split; [assumption|].
      exists (map val rest). rewrite Hq, map_app, Hm. reflexivity.
    + subst c1. split; [discriminate|].
      intros (_ & Hs & Hd & rest & Hm).
      apply (Hcomp rest Hs Hd Hm).
Qed.

Lemma HasPrefix_true_iff_witness :
  exists c1 : RuneCursor (list byte),
    HasPrefix str_ab (NewRuneCursor str_abc []) = Ok (true, c1) /\
    utf8.RuneCountInString str_ab = len (utf8.runes str_ab) /\
    (true = true <->
     utf8.RuneCountInString str_ab <= rabuflen c1 /\ str_ab <> [] /\
     decodable str_ab /\
     exists rest : list Z, map val (rabuf c1) = utf8.runes str_ab ++ rest).
Proof.
  assert (E : exists c1, HasPrefix str_ab (NewRuneCursor str_abc [])
                         = Ok (true, c1)).
  { eexists. vm_compute. reflexivity. }
  destruct E as [c1 E]. exists c1. split; [exact E|].
  exact (HasPrefix_true_iff (list byte) bytesReader _ str_ab true c1 E).
Defined.

(** X7. [HasPrefix(s)] is repeatable and foretells [Consume(s)]: after
    [HasPrefix(s)] has returned [b], a second [HasPrefix(s)] returns [b]
    again and [Consume(s)] returns [b] as well. *)
Theorem HasPrefix_foretells_Consume :
  forall (R : Type) (RD : Reader R) (c : RuneCursor R) (s : list byte)
         (b : bool) (c1 : RuneCursor R),
    HasPrefix s c = Ok (b, c1) ->
    (exists c1', HasPrefix s c1 = Ok (b, c1')) /\
    (exists c2, Consume s c1 = Ok (b, c2)).
Proof.
  intros R RD c s b c1 E.
  unfold HasPrefix, hasPrefix in E. inv_bind E. destruct a as [e c0].
  pose proof (fillRuneBuffer_inv _ _ _ _ E0) as (_ & _ & _ & _ & _ & Hok & Hfail).
  destruct e as [e|]; cbn [isErr] in E.
  - inversion E; subst. destruct (Hfail ltac:(discriminate)) as [Hcol Hlt].
    destruct (fill_collapsed _ c1 Hcol Hlt) as (e' & c' & Ef & _).
    unfold HasPrefix, Consume, hasPrefix. rewrite Ef. cbn [bind isErr].
    split; exists c'; reflexivity.
  - specialize (Hok eq_refl).
    pose proof (prefixWalk_spec (rabuf c0) s 0 (column c0) (lineno c0) false c0
                  ltac:(lia)) as Hspec.
    pose proof (prefixWalk_bool (rabuf c0) s 0 (column c0) true c0) as Hb.
    destruct (prefixWalk (rabuf c0) s 0 (column c0) false c0) as [b0 c0'] eqn:Ew.
    inversion E; subst b0 c0'. clear E.
    assert (c1 = c0).
    { destruct b; [destruct Hspec as (m & rest & _ & _ & ->) | subst];
        reflexivity. }
    subst c1. cbn [fst] in Hb.
    assert (Ef : fillRuneBuffer (utf8.RuneCountInString s) c0 = Ok (None, c0)).
    { unfold fillRuneBuffer.
      replace (rabuflen c0 >=? utf8.RuneCountInString s) with true by lia.
      reflexivity. }
    unfold HasPrefix, Consume, hasPrefix. rewrite Ef. cbn [bind isErr].
    rewrite Ew. split; [exists c0; reflexivity|].
    destruct (prefixWalk (rabuf c0) s 0 (column c0) true c0) as [b2 c2].
    cbn [fst] in Hb. subst b2. exists c2. reflexivity.
Qed.

Lemma HasPrefix_foretells_Consume_witness :
  exists c1 : RuneCursor (list byte),
    HasPrefix str_ab (NewRuneCursor str_abc []) = Ok (true, c1) /\
    (exists c1', HasPrefix str_ab c1 = Ok (true, c1')) /\
    (exists c2, Consume str_ab c1 = Ok (true, c2)).
Proof.
  assert (E : exists c1, HasPrefix str_ab (NewRuneCursor str_abc [])
                         = Ok (true, c1)).
  { eexists. vm_compute. reflexivity. }
  destruct E as [c1 E]. exists c1. split; [exact E|].
  exact (HasPrefix_foretells_Consume (list byte) bytesReader _ str_ab true c1 E).
Defined.

(** ** Facts about calls in a row *)

Lemma nth_error_firstn_lt {A : Type} (k i : nat) :
  forall l : list A, (i < k)%nat -> nth_error (firstn k l) i = nth_error l i.
Proof.
  revert k. induction i as [|i IH]; intros [|k] [|a l] Hlt; try reflexivity;
    try lia.
  cbn [firstn nth_error]. apply IH. lia.
Qed.

Section RowFacts.

Context {R : Type} `{Reader R}.
Implicit Types c : RuneCursor R.

Lemma consumeNode_set_rabuf (h : runebuf) (q : list runebuf) c :
  consumeNode h (set_rabuf q c) = set_rabuf q (consumeNode h c).
Proof. unfold consumeNode. cbn. destruct (val h =? 10); reflexivity. Qed.

(** The loop of [Advance] does not look at [c.rabuf] while it has nodes
    to walk over. *)
Lemma advanceLoop_set_rabuf (k : nat) :
  forall (head q : list runebuf) c,
    (k <= length head)%nat ->
    advanceLoop k head (set_rabuf q c) = advanceLoop k head c.
Proof.
  induction k as [|k IH]; intros head q c Hk; cbn [advanceLoop].
  - reflexivity.
  - destruct head as [|h t]; [cbn [length] in Hk; lia|].
    rewrite consumeNode_set_rabuf. apply IH. cbn [length] in Hk. lia.
Qed.

Lemma advanceLoop_add (a : nat) :
  forall (b : nat) (head : list runebuf) c,
    (a + b <= length head)%nat ->
    advanceLoop (a + b) head c
    = advanceLoop b (skipn a head) (snd (advanceLoop a head c)).
Proof.
  induction a as [|a IH]; intros b head c Hab; cbn [Nat.add advanceLoop skipn].
  - cbn [snd]. rewrite advanceLoop_set_rabuf by (cbn [Nat.add] in Hab; lia).
    reflexivity.
  - destruct head as [|h t]; [cbn [length] in Hab; lia|].
    cbn [skipn]. apply IH. cbn [length] in Hab. lia.
Qed.

Lemma peekWalk_nth (k : nat) :
  forall (q : list runebuf) (v : Z),
    peekWalk k q = Ok v <-> nth_error (map val q) k = Some v.
Proof.
  induction k as [|k IH]; intros [|h t] v; cbn [peekWalk map nth_error];
    try (split; discriminate).
  - split; intros E; inversion E; reflexivity.
  - apply IH.
Qed.

(** As many calls of [Cur] as are both counted and in the list return
    the runes of the first nodes and read nothing. *)
Lemma curN_counted (k : nat) :
  forall c,
    (k <= length (rabuf c))%nat -> Z.of_nat k <= rabuflen c ->
    exists c',
      curN k c = Ok (map val (firstn k (rabuf c)), c') /\
      in_ c' = in_ c /\ buf c' = buf c /\ rabuf c' = skipn k (rabuf c).
Proof.
  induction k as [|k IH]; intros c Hk Hl.
  - exists c. repeat split.
  - destruct (rabuf c) as [|h t] eqn:Hq; [cbn [length] in Hk; lia|].
    cbn [curN]. rewrite (Cur_queued h t c Hq) by lia. cbn [bind].
    destruct (consumeNode_frame h c) as (Hb & _ & _ & Hi & Hr).
    destruct (IH (set_rabuf t (consumeNode h c))) as (c' & E & Hi' & Hb' & Hq').
    + cbn [rabuf set_rabuf]. cbn [length] in Hk. lia.
    + cbn [rabuflen set_rabuf]. rewrite Hr. lia.
    + exists c'. rewrite E. cbn [bind rabuf set_rabuf firstn map skipn] in *.
      split; [reflexivity|]. cbn [in_ buf set_rabuf] in *.
      repeat split; congruence.
Qed.

End RowFacts.

(** X8. Two calls of [Advance] in a row are one: when the read-ahead
    list holds at least [m + n] nodes, [Advance(m)] followed by
    [Advance(n)] returns no error and leaves the cursor that
    [Advance(m + n)] leaves. *)
Theorem Advance_Advance :
  forall (R : Type) (RD : Reader R) (c : RuneCursor R) (m n : Z),
    0 <= m -> 0 <= n -> m + n <= len (rabuf c) ->
    fst (Advance m c) = None /\
    Advance n (snd (Advance m c)) = Advance (m + n) c /\
    fst (Advance (m + n) c) = None.
Proof.
  intros R RD c m n Hm Hn Hlen. unfold len in Hlen.
  pose proof (advanceLoop_spec (Z.to_nat m) (rabuf c) c) as Hs1.
  pose proof (advanceLoop_spec (Z.to_nat (m + n)) (rabuf c) c) as Hs2.
  cbn zeta in Hs1, Hs2.
  destruct Hs1 as (_ & _ & _ & _ & _ & _ & _ & Hq1).
  destruct Hs2 as (_ & _ & _ & _ & _ & _ & _ & Hq2).
  replace (Z.to_nat m <=? length (rabuf c))%nat with true in Hq1
    by (symmetry; apply Nat.leb_le; lia).
  replace (Z.to_nat (m + n) <=? length (rabuf c))%nat with true in Hq2
    by (symmetry; apply Nat.leb_le; lia).
  destruct Hq1 as [He1 Hr1]. destruct Hq2 as [He2 _].
  split; [exact He1|]. split; [|exact He2].
  unfold Advance in *. rewrite Hr1.
  replace (Z.to_nat (m + n)) with (Z.to_nat m + Z.to_nat n)%nat by lia.
  rewrite advanceLoop_add by lia. reflexivity.
Qed.

Lemma Advance_Advance_witness :
  exists c : RuneCursor (list byte),
    Peek (NewRuneCursor str_abc []) = Ok (97, c) /\
    fst (Advance 1 c) = None /\
    Advance 2 (snd (Advance 1 c)) = Advance (1 + 2) c /\
    fst (Advance (1 + 2) c) = None.
Proof.
  assert (E : exists c, Peek (NewRuneCursor str_abc []) = Ok (97, c)).
  { eexists. vm_compute. reflexivity. }
  destruct E as [c E]. exists c. split; [exact E|].
  apply (Advance_Advance (list byte) bytesReader c 1 2); try lia.
  vm_compute in E. inversion E; subst. vm_compute. discriminate.
Defined.

(** X9. [Cur] returns what [Peek] has seen: if [Peek] returns [v], then
    [Cur] called in its place returns [v], and [Cur] called after it
    returns [v]; this holds for the sentinel of a failed fill too. *)
Theorem Cur_returns_what_Peek_saw :
  forall (R : Type) (RD : Reader R) (c : RuneCursor R) (v : Z)
         (c1 : RuneCursor R),
    Peek c = Ok (v, c1) ->
    (exists c2, Cur c = Ok (v, c2)) /\ (exists c2, Cur c1 = Ok (v, c2)).
Proof.
  intros R RD c v c1 E. apply PeekN_inv in E.
  destruct E as (e & Ef & [(He & ->)|(-> & Hw)]).
  - destruct e as [e|]; [|congruence].
    pose proof (fillRuneBuffer_inv _ _ _ _ Ef) as (_ & _ & _ & _ & _ & _ & Hfail).
    destruct (Hfail ltac:(discriminate)) as [Hcol Hlt].
    split.
    + exists c1. unfold Cur. rewrite Ef. reflexivity.
    + destruct (fill_collapsed 1 c1 Hcol Hlt) as (e' & c' & Ef' & _).
      exists c'. unfold Cur. rewrite Ef'. reflexivity.
  - pose proof (fillRuneBuffer_inv _ _ _ _ Ef) as (_ & _ & _ & _ & _ & Hok & _).
    specialize (Hok eq_refl).
    change (Z.to_nat (1 - 1)) with 0%nat in Hw.
    destruct (rabuf c1) as [|h t] eqn:Hq; cbn [peekWalk] in Hw;
      [discriminate|]. inversion Hw; subst v.
    split.
    + eexists. unfold Cur. rewrite Ef. cbn [bind isErr]. rewrite Hq. reflexivity.
    + eexists. apply (Cur_queued h t c1 Hq Hok).
Qed.

Lemma Cur_returns_what_Peek_saw_witness :
  exists c1 : RuneCursor (list byte),
    Peek (NewRuneCursor str_abc []) = Ok (97, c1) /\
    (exists c2, Cur (NewRuneCursor str_abc []) = Ok (97, c2)) /\
    (exists c2, Cur c1 = Ok (97, c2)).
Proof.
  assert (E : exists c1, Peek (NewRuneCursor str_abc []) = Ok (97, c1)).
  { eexists. vm_compute. reflexivity. }
  destruct E as [c1 E]. exists c1. split; [exact E|].
  exact (Cur_returns_what_Peek_saw (list byte) bytesReader _ 97 c1 E).
Defined.

(** X10. [Cur] delivers what [PeekN] has seen: after a [PeekN(n)],
    [n >= 1], whose fill succeeded and which returned [v], [n] calls of
    [Cur] return the runes of the first [n] nodes of the read-ahead
    list without reading from the source, and the last of them is [v]. *)
Theorem Cur_delivers_what_PeekN_saw :
  forall (R : Type) (RD : Reader R) (c : RuneCursor R) (n v : Z)
         (c1 : RuneCursor R),
    PeekN n c = Ok (v, c1) -> 1 <= n -> n <= rabuflen c1 ->
    exists (rs : list Z) (c2 : RuneCursor R),
      curN (Z.to_nat n) c1 = Ok (rs, c2) /\
      rs = map val (firstn (Z.to_nat n) (rabuf c1)) /\
      nth_error rs (Z.to_nat (n - 1)) = Some v /\
      in_ c2 = in_ c1 /\ buf c2 = buf c1.
Proof.
  intros R RD c n v c1 E Hn Hl. apply PeekN_inv in E.
  destruct E as (e & Ef & [(He & ->)|(-> & Hw)]).
  { exfalso. apply fillRuneBuffer_inv in Ef.
    destruct Ef as (_ & _ & _ & _ & _ & _ & Hfail).
    destruct (Hfail He) as [_ Hlt]. lia. }
  apply peekWalk_nth in Hw.
  assert (Hlen : (Z.to_nat n <= length (rabuf c1))%nat).
  { assert (Hsome : nth_error (map val (rabuf c1)) (Z.to_nat (n - 1)) <> None)
      by congruence.
    apply nth_error_Some in Hsome. rewrite length_map in Hsome. lia. }
  destruct (curN_counted (Z.to_nat n) c1 Hlen ltac:(lia))
    as (c2 & E & Hi & Hb & _).
  eexists _, c2. split; [exact E|]. split; [reflexivity|].
  split; [|split; assumption].
  rewrite <- firstn_map, nth_error_firstn_lt by lia. exact Hw.
Qed.

Lemma Cur_delivers_what_PeekN_saw_witness :
  exists c1 : RuneCursor (list byte),
    PeekN 3 (NewRuneCursor str_abc []) = Ok (99, c1) /\
    exists (rs : list Z) (c2 : RuneCursor (list byte)),
      curN (Z.to_nat 3) c1 = Ok (rs, c2) /\
      rs = map val (firstn (Z.to_nat 3) (rabuf c1)) /\
      nth_error rs (Z.to_nat (3 - 1)) = Some 99 /\
      in_ c2 = in_ c1 /\ buf c2 = buf c1.
Proof.
  assert (E : exists c1, PeekN 3 (NewRuneCursor str_abc []) = Ok (99, c1) /\
                         3 <= rabuflen c1).
  { eexists. split; [vm_compute; reflexivity | vm_compute; discriminate]. }
  destruct E as (c1 & E & Hl). exists c1. split; [exact E|].
  apply (Cur_delivers_what_PeekN_saw (list byte) bytesReader _ 3 99 c1 E);
    [lia | exact Hl].
Defined.

(** ** Facts about the reads of an idle cursor *)

Section IdleFacts.

Context {R : Type} `{Reader R}.
Implicit Types c : RuneCursor R.

Lemma NewRuneCursor_idle (r : R) (nn : list Z) :
  idle (NewRuneCursor r nn) /\
  length (buf (NewRuneCursor r nn)) = Z.to_nat (capacity nn) /\
  in_ (NewRuneCursor r nn) = r.
Proof.
  pose proof (capacity_pos nn) as Hpos.
  unfold idle, NewRuneCursor. fold (capacity nn).
  cbn [rabuf rabuflen in_ buf bufpos buflen].
  rewrite len_repeat_x00 by lia. rewrite repeat_length. repeat split; lia.
Qed.

(** The first turn of the refill of an idle cursor, up to its read: the
    whole scratch buffer is handed to the source. *)
Lemma fillLoop_idle (fuel : nat) (n : Z) c :
  idle c -> 1 <= n ->
  fillLoop (S fuel) n 0 c
  = (let '(data, err, r') := Read (in_ c) (length (buf c)) in
     let c4 := set_in r' (set_buf (copy (buf c) data) (set_bufpos 0 c)) in
     if (len data =? 0) && isErr err then
       Ok (err, set_buflen 0 (set_buf [] c4))
     else
       '(_, c5) <- decodeIntoRuneBuffer (set_buflen (len data) c4) ;;
       if 0 =? rabuflen c5 then
         Ok (Some FailedToFill, set_buflen 0 (set_buf [] c5))
       else fillLoop fuel n (rabuflen c5) c5).
Proof.
  intros (Hq & Hql & Hpos & Hbl) Hn. cbn [fillLoop].
  rewrite decode_done by lia. cbn [bind]. rewrite Hql.
  replace (0 >=? n) with false by lia.
  replace (bufpos c <? buflen c) with false by lia. cbn [bind].
  replace (bufpos c >? buflen c) with false by lia.
  replace (buflen c - bufpos c) with 0 by lia.
  unfold readInto. cbn [buf bufpos set_bufpos in_].
  unfold sliceFrom.
  replace ((0 <=? 0) && (0 <=? len (buf c))) with true by (unfold len; lia).
  cbn [bind Z.to_nat skipn firstn app].
  destruct (Read (in_ c) (length (buf c))) as [[data err] r'].
  cbn [bind]. reflexivity.
Qed.

(** A read of no byte, with or without an error, ends the refill of an
    idle cursor with an error. *)
Lemma fill_idle_no_byte (n : Z) c (err : option error) (r' : R) :
  idle c -> 1 <= n ->
  Read (in_ c) (length (buf c)) = ([], err, r') ->
  exists e c',
    fillRuneBuffer n c = Ok (Some e, c') /\ collapsed c' /\ idle c' /\
    in_ c' = r' /\
    (e = FailedToFill \/ err = Some e).
Proof.
  intros Hidle Hn Er. pose proof Hidle as (Hq & Hql & Hpos & Hbl).
  unfold fillRuneBuffer. rewrite Hql.
  replace (0 >=? n) with false by lia.
  rewrite (fillLoop_idle _ n c Hidle Hn), Er.
  cbn [len length Z.of_nat Z.eqb andb].
  destruct err as [e|]; cbn [isErr].
  - exists e. eexists. split; [reflexivity|].
    unfold collapsed, idle, len. cbn. repeat split; auto; lia.
  - rewrite decode_done by (cbn; lia). cbn [bind].
    cbn [rabuflen set_buflen set_in set_buf set_bufpos]. rewrite Hql.
    cbn [Z.eqb]. exists FailedToFill. eexists. split; [reflexivity|].
    unfold collapsed, idle, len. cbn. repeat split; auto; lia.
Qed.

(** A read of a non-empty decodable string fills the read-ahead list of
    an idle cursor with the nodes of that string. *)
Lemma fill_idle_read (c : RuneCursor R) (ch : list byte)
      (err : option error) (r' : R) :
  idle c ->
  Read (in_ c) (length (buf c)) = (ch, err, r') ->
  ch <> [] -> decodable ch ->
  exists c1,
    fillRuneBuffer 1 c = Ok (None, c1) /\
    rabuf c1 = nodes ch /\ rabuflen c1 = len (nodes ch) /\
    in_ c1 = r' /\ length (buf c1) = length (buf c) /\
    bufpos c1 = buflen c1 /\ 0 <= buflen c1 <= len (buf c1).
Proof.
  intros Hidle Er Hne Hd. pose proof Hidle as (Hq & Hql & Hpos & Hbl).
  pose proof (Read_len (in_ c) (length (buf c))) as Hrl.
  rewrite Er in Hrl. cbn [fst] in Hrl.
  unfold fillRuneBuffer. rewrite Hql. change (0 >=? 1) with false.
  change (Z.to_nat (1 - 0)) with 1%nat.
  rewrite (fillLoop_idle _ 1 c Hidle ltac:(lia)), Er.
  assert (Hn0 : (len ch =? 0) = false).
  { destruct ch; [congruence | unfold len; cbn [length]; lia]. }
  rewrite Hn0. cbn [andb].
  set (c5 := set_buflen (len ch) _).
  assert (Hcopy : copy (buf c) ch = ch ++ skipn (length ch) (buf c)).
  { unfold copy. rewrite firstn_all2 by lia. reflexivity. }
  destruct (decodeLoop_decodable (length ch) ch false c5 []
              (skipn (length ch) (buf c)) Hd)
    as (c6 & E6 & Hp6 & Hl6 & Hq6).
  { subst c5. cbn [buf set_buflen set_in set_buf app]. exact Hcopy. }
  { subst c5. reflexivity. }
  { subst c5. cbn [buflen set_buflen len length Z.of_nat]. unfold len. lia. }
  { lia. }
  assert (Efuel : Z.to_nat (buflen c5 - bufpos c5) = length ch).
  { subst c5. cbn [buflen bufpos set_buflen set_in set_buf set_bufpos].
    unfold len. lia. }
  unfold decodeIntoRuneBuffer at 1. rewrite Efuel, E6. cbn [bind].
  pose proof (decodeLoop_inv _ _ _ _ _ E6)
    as (Hb6 & Hbl6 & _ & Hi6 & _ & _ & _ & _).
  assert (Hq5 : rabuf c5 = []) by (subst c5; exact Hq).
  assert (Hql5 : rabuflen c5 = 0) by (subst c5; exact Hql).
  assert (Hnodes : 1 <= len (nodes ch)).
  { pose proof (nodes_nonempty ch Hne). destruct (nodes ch);
      [congruence | unfold len; cbn [length]; lia]. }
  rewrite Hql5 in Hl6.
  replace (0 =? rabuflen c6) with false by lia.
  cbn [fillLoop].
  rewrite decode_done by lia. cbn [bind].
  replace (rabuflen c6 >=? 1) with true by lia.
  exists c6. split; [reflexivity|].
  split. { rewrite Hq6, Hq5. destruct (nodes ch); reflexivity. }
  split; [lia|].
  split. { rewrite Hi6. subst c5. reflexivity. }
  assert (Hlenb : length (buf c6) = length (buf c)).
  { rewrite Hb6. subst c5. cbn [buf set_buflen set_in set_buf set_bufpos].
    rewrite Hcopy, length_app, length_skipn. lia. }
  split; [exact Hlenb|]. split; [lia|].
  rewrite Hbl6. subst c5. cbn [buflen set_buflen]. unfold len in *. lia.
Qed.

End IdleFacts.

(** X11. A source whose first read gives no byte, with or without an
    error, exhausts a fresh cursor at once: [Done] returns true and
    collapses the buffer, [Cur], [Peek] and every [PeekN(n)] with
    [n >= 1] return the sentinel, [HasPrefix] and [Consume] return false
    for every string. *)
Theorem first_read_of_no_byte_exhausts :
  forall (R : Type) (RD : Reader R) (r : R) (nn : list Z)
         (err : option error) (r' : R),
    Read r (Z.to_nat (capacity nn)) = ([], err, r') ->
    (exists c', Done (NewRuneCursor r nn) = Ok (true, c') /\ collapsed c') /\
    (exists c', Cur (NewRuneCursor r nn) = Ok (utf8.RuneError, c')) /\
    (exists c', Peek (NewRuneCursor r nn) = Ok (utf8.RuneError, c')) /\
    (forall n : Z, 1 <= n ->
       exists c', PeekN n (NewRuneCursor r nn) = Ok (utf8.RuneError, c')) /\
    (forall s : list byte,
       (exists c', HasPrefix s (NewRuneCursor r nn) = Ok (false, c')) /\
       (exists c', Consume s (NewRuneCursor r nn) = Ok (false, c'))).
Proof.
  intros R RD r nn err r' Er.
  destruct (NewRuneCursor_idle r nn) as (Hidle & Hlen & Hin).
  assert (Hfill : forall n, 1 <= n ->
            exists e c', fillRuneBuffer n (NewRuneCursor r nn) = Ok (Some e, c')
                         /\ collapsed c').
  { intros n Hn.
    destruct (fill_idle_no_byte n (NewRuneCursor r nn) err r' Hidle Hn)
      as (e & c' & Ef & Hcol & _).
    - rewrite Hlen, Hin. exact Er.
    - exists e, c'. split; assumption. }
  split; [|split; [|split; [|split]]].
  - destruct (Hfill 1 ltac:(lia)) as (e & c' & Ef & Hcol).
    exists c'. unfold Done. rewrite Ef. split; [reflexivity | assumption].
  - destruct (Hfill 1 ltac:(lia)) as (e & c' & Ef & _).
    exists c'. unfold Cur. rewrite Ef. reflexivity.
  - destruct (Hfill 1 ltac:(lia)) as (e & c' & Ef & _).
    exists c'. unfold Peek, PeekN. rewrite Ef. reflexivity.
  - intros n Hn. destruct (Hfill n Hn) as (e & c' & Ef & _).
    exists c'. unfold PeekN. rewrite Ef. reflexivity.
  - intros s. unfold HasPrefix, Consume, hasPrefix.
    destruct s as [|b s].
    + change (utf8.RuneCountInString []) with 0.
      split; eexists; reflexivity.
    + assert (Hn : 1 <= utf8.RuneCountInString (b :: s)).
      { rewrite RuneCountInString_runes.
        pose proof (runes_nonempty (b :: s) ltac:(discriminate)) as Hne.
        destruct (utf8.runes (b :: s)); [congruence|].
        unfold len. cbn [length]. lia. }
      destruct (Hfill _ Hn) as (e & c' & Ef & _). rewrite Ef.
      split; exists c'; reflexivity.
Qed.

Lemma first_read_of_no_byte_exhausts_witness :
  Read ([] : list byte) (Z.to_nat (capacity [])) = ([], Some io_EOF, []) /\
  (exists c', Done (NewRuneCursor ([] : list byte) []) = Ok (true, c') /\
              collapsed c') /\
  (exists c', Cur (NewRuneCursor ([] : list byte) []) = Ok (utf8.RuneError, c')) /\
  (exists c', Peek (NewRuneCursor ([] : list byte) []) = Ok (utf8.RuneError, c')) /\
  (forall n : Z, 1 <= n ->
     exists c', PeekN n (NewRuneCursor ([] : list byte) [])
                = Ok (utf8.RuneError, c')) /\
  (forall s : list byte,
     (exists c', HasPrefix s (NewRuneCursor ([] : list byte) []) = Ok (false, c')) /\
     (exists c', Consume s (NewRuneCursor ([] : list byte) []) = Ok (false, c'))).
Proof.
  split; [reflexivity|].
  exact (first_read_of_no_byte_exhausts (list byte) bytesReader [] []
           (Some io_EOF) [] eq_refl).
Defined.

(** ** Facts about the cursor over a [strings.Reader] *)

Lemma DecodeRune_ascii (b : byte) (rest : list byte) :
  utf8.b2z b < 0x80 -> utf8.DecodeRune (b :: rest) = (utf8.b2z b, 1).
Proof.
  intros Hb. unfold utf8.DecodeRune, utf8.first.
  replace (utf8.b2z b <? 128) with true by lia. reflexivity.
Qed.

Lemma runes_ascii (s : list byte) :
  isASCII s -> utf8.runes s = map utf8.b2z s.
Proof.
  induction 1 as [|b s Hb Hs IH]; [reflexivity|].
  rewrite (runes_cons (b :: s)) by discriminate.
  rewrite (DecodeRune_ascii b s Hb). cbn [fst snd map].
  change (Z.to_nat 1) with 1%nat. cbn [skipn]. rewrite IH. reflexivity.
Qed.

Lemma b2z_nonneg (b : byte) : 0 <= utf8.b2z b.
Proof. unfold utf8.b2z. lia. Qed.

Lemma decodable_ascii (s : list byte) : isASCII s -> decodable s.
Proof.
  intros Hs. unfold decodable. rewrite (runes_ascii s Hs).
  apply Forall_map. eapply Forall_impl; [|exact Hs].
  intros b Hb. cbv beta in *. unfold utf8.RuneError. lia.
Qed.

Lemma chunksOf_ascii (fuel : nat) :
  forall (k : nat) (s : list byte),
    isASCII s -> Forall decodable (chunksOf fuel k s).
Proof.
  induction fuel as [|fuel IH]; intros k [|b s] Hs; cbn [chunksOf];
    try constructor.
  - apply decodable_ascii. unfold isASCII in *.
    rewrite <- (firstn_skipn k (b :: s)) in Hs. apply Forall_app in Hs. tauto.
  - apply IH. unfold isASCII in *.
    rewrite <- (firstn_skipn k (b :: s)) in Hs. apply Forall_app in Hs. tauto.
Qed.

(** Over a [strings.Reader] every read of an idle cursor takes the next
    piece of the input; pieces that decode by themselves come out rune
    for rune. *)
Lemma curN_bytes (fuel : nat) :
  forall (k : nat) (s : list byte) (c : RuneCursor (list byte)),
    (1 <= k)%nat -> (length s <= fuel)%nat ->
    idle c -> in_ c = s -> length (buf c) = k ->
    Forall decodable (chunksOf fuel k s) ->
    exists c',
      curN (length (utf8.runes s)) c = Ok (utf8.runes s, c') /\
      idle c' /\ in_ c' = [] /\ length (buf c') = k.
Proof.
  induction fuel as [|fuel IH]; intros k s c Hk Hf Hidle Hin Hlen Hch.
  - destruct s; [|cbn [length] in Hf; lia].
    exists c. split; [reflexivity|]. split; [exact Hidle|]. split; assumption.
  - destruct s as [|b s].
    { exists c. split; [reflexivity|]. split; [exact Hidle|]. split; assumption. }
    cbn [chunksOf] in Hch. inversion Hch as [|ch chs Hd Hrest]; subst ch chs.
    set (ch := firstn k (b :: s)) in *.
    set (s' := skipn k (b :: s)) in *.
    assert (Hne : ch <> []).
    { subst ch. destruct k; [lia | discriminate]. }
    assert (Er : Read (in_ c) (length (buf c)) = (ch, None, s')).
    { rewrite Hin, Hlen. reflexivity. }
    destruct (fill_idle_read c ch None s' Hidle Er Hne Hd)
      as (c1 & Ef & Hq1 & Hql1 & Hin1 & Hlen1 & Hpos1 & Hbl1).
    assert (Hs : b :: s = ch ++ s') by (symmetry; apply firstn_skipn).
    rewrite Hs, (runes_app ch s' Hd), length_app, curN_app.
    pose proof (nodes_nonempty ch Hne) as Hnn.
    assert (Hcount : length (utf8.runes ch) = length (nodes ch)).
    { rewrite <- map_val_nodes, length_map. reflexivity. }
    assert (E1 : curN (length (utf8.runes ch)) c
                 = curN (length (utf8.runes ch)) c1).
    { rewrite Hcount. destruct (nodes ch) as [|h t] eqn:En; [congruence|].
      cbn [length curN]. rewrite (Cur_after_fill c c1 Ef); [reflexivity|].
      rewrite Hql1. unfold len. cbn [length]. lia. }
    rewrite E1, Hcount.
    destruct (curN_queued (nodes ch) c1 Hq1 Hql1)
      as (c2 & E2 & Hq2 & Hql2 & Hb2 & Hbl2 & Hbp2 & Hin2).
    rewrite E2. cbn [bind]. rewrite map_val_nodes.
    destruct (IH k s' c2 Hk) as (c3 & E3 & Hidle3 & Hin3 & Hlen3).
    + subst s'. rewrite length_skipn. cbn [length] in *. lia.
    + unfold idle. rewrite Hq2, Hql2, Hbp2, Hbl2, Hb2. repeat split; lia.
    + congruence.
    + congruence.
    + exact Hrest.
    + rewrite E3. exists c3. split; [reflexivity|]. split; [exact Hidle3|].
      split; assumption.
Qed.

Lemma strings_Reader_run (s : list byte) (nn : list Z) :
  Forall decodable (chunksOf (length s) (Z.to_nat (capacity nn)) s) ->
  exists c c' : RuneCursor (list byte),
    curN (length (utf8.runes s)) (NewRuneCursor s nn)
    = Ok (utf8.runes s, c) /\
    Done c = Ok (true, c').
Proof.
  intros Hch. pose proof (capacity_pos nn) as Hpos.
  destruct (NewRuneCursor_idle s nn) as (Hidle & Hlen & Hin).
  destruct (curN_bytes (length s) (Z.to_nat (capacity nn)) s
              (NewRuneCursor s nn) ltac:(lia) ltac:(lia) Hidle Hin Hlen Hch)
    as (c & E & Hidle' & Hin' & Hlen').
  destruct (fill_idle_no_byte 1 c (Some io_EOF) [] Hidle' ltac:(lia))
    as (e & c' & Ef & _).
  { rewrite Hin'. reflexivity. }
  exists c, c'. split; [exact E|]. unfold Done. rewrite Ef. reflexivity.
Qed.

(** X12. Over a [strings.Reader], with a scratch buffer of any capacity
    [k]: if every piece of [k] bytes of the input (the last may be
    shorter) is by itself valid UTF-8 without U+FFFD, then as many calls
    of [Cur] as the input has runes return exactly its runes in order,
    and [Done] then returns true. *)
Theorem strings_Reader_aligned_input :
  forall (s : list byte) (nn : list Z),
    Forall decodable (chunksOf (length s) (Z.to_nat (capacity nn)) s) ->
    exists c c' : RuneCursor (list byte),
      curN (length (utf8.runes s)) (NewRuneCursor s nn)
      = Ok (utf8.runes s, c) /\
      Done c = Ok (true, c').
Proof. intros s nn Hch. exact (strings_Reader_run s nn Hch). Qed.

Lemma strings_Reader_aligned_input_witness :
  Forall decodable
         (chunksOf (length [xc3; xa9; "x"%byte; "y"%byte; xc3; xa9])
                   (Z.to_nat (capacity [4]))
                   [xc3; xa9; "x"%byte; "y"%byte; xc3; xa9]) /\
  exists c c' : RuneCursor (list byte),
    curN (length (utf8.runes [xc3; xa9; "x"%byte; "y"%byte; xc3; xa9]))
         (NewRuneCursor [xc3; xa9; "x"%byte; "y"%byte; xc3; xa9] [4])
    = Ok (utf8.runes [xc3; xa9; "x"%byte; "y"%byte; xc3; xa9], c) /\
    Done c = Ok (true, c').
Proof.
  assert (Hch : Forall decodable
                  (chunksOf (length [xc3; xa9; "x"%byte; "y"%byte; xc3; xa9])
                            (Z.to_nat (capacity [4]))
                            [xc3; xa9; "x"%byte; "y"%byte; xc3; xa9])).
  { repeat constructor; vm_compute; discriminate. }
  split; [exact Hch|].
  exact (strings_Reader_aligned_input _ [4] Hch).
Defined.

(** X13. ASCII input of any length comes through whole: over a
    [strings.Reader] of bytes below 0x80, with a scratch buffer of any
    capacity, as many calls of [Cur] as there are bytes return the bytes
    in order as runes, and [Done] then returns true. *)
Theorem ASCII_input_is_reproduced :
  forall (s : list byte) (nn : list Z),
    isASCII s ->
    exists c c' : RuneCursor (list byte),
      curN (length s) (NewRuneCursor s nn) = Ok (map utf8.b2z s, c) /\
      Done c = Ok (true, c').
Proof.
  intros s nn Hs.
  destruct (strings_Reader_run s nn (chunksOf_ascii _ _ s Hs)) as (c & c' & E & Ed).
  rewrite (runes_ascii s Hs), length_map in E.
  exists c, c'. split; assumption.
Qed.

Lemma ASCII_input_is_reproduced_witness :
  isASCII str_abc /\
  exists c c' : RuneCursor (list byte),
    curN (length str_abc) (NewRuneCursor str_abc [2])
    = Ok (map utf8.b2z str_abc, c) /\
    Done c = Ok (true, c').
Proof.
  assert (Hs : isASCII str_abc).
  { repeat constructor; vm_compute; reflexivity. }
  split; [exact Hs|].
  exact (ASCII_input_is_reproduced str_abc [2] Hs).
Defined.

(** ** Facts about edge cases of the calls *)

Section EdgeFacts.

Context {R : Type} `{Reader R}.
Implicit Types c : RuneCursor R.

(** On a collapsed buffer a failing fill still calls [Read] once, with an
    empty slice. *)
Lemma fill_collapsed_read (n : Z) c :
  collapsed c -> rabuflen c < n ->
  exists e c',
    fillRuneBuffer n c = Ok (Some e, c') /\
    in_ c' = snd (Read (in_ c) 0) /\
    (snd (fst (Read (in_ c) 0)) = Some e \/
     snd (fst (Read (in_ c) 0)) = None /\ e = FailedToFill) /\
    buf c' = [] /\ buflen c' = 0 /\ bufpos c' = 0 /\
    rabuf c' = rabuf c /\ rabuflen c' = rabuflen c.
Proof.
  intros (Hb & Hl & Hp) Hn.
  unfold fillRuneBuffer. replace (rabuflen c >=? n) with false by lia.
  cbn [fillLoop].
  rewrite decode_done by lia. cbn [bind].
  replace (rabuflen c >=? n) with false by lia.
  replace (bufpos c <? buflen c) with false by lia. cbn [bind].
  set (c3 := if bufpos c >? buflen c then set_bufpos 0 c
             else set_bufpos (buflen c - bufpos c) c).
  assert (Hc3 : c3 = set_bufpos 0 c).
  { subst c3. destruct (bufpos c >? buflen c) eqn:Hgt; [reflexivity|].
    f_equal. lia. }
  rewrite Hc3. clear c3 Hc3.
  unfold readInto. cbn [buf bufpos set_bufpos in_]. rewrite Hb.
  cbn [sliceFrom len length Z.of_nat Z.leb Z.compare andb bind skipn Z.to_nat].
  pose proof (Read_len (in_ c) 0) as Hrl.
  destruct (Read (in_ c) 0) as [[data err] r'].
  cbn [fst snd] in *. destruct data as [|d data]; [|cbn [length] in Hrl; lia].
  cbn [bind firstn copy length skipn app len Z.of_nat Z.eqb andb].
  destruct err as [e|]; cbn [isErr].
  - exists e. eexists. split; [reflexivity|]. cbn.
    repeat split; auto.
  - rewrite decode_done by (cbn; lia). cbn [bind].
    cbn [rabuflen set_buflen set_in set_buf set_bufpos].
    rewrite Z.eqb_refl.
    exists FailedToFill. eexists. split; [reflexivity|]. cbn.
    repeat split; auto.
Qed.

End EdgeFacts.

(** X14. [PeekN(n)] with [n <= 0] reads nothing and looks at the head of
    the read-ahead list: whenever [rabuflen >= n] it returns the rune of
    the head and leaves the cursor as it is, and with an empty list it
    dereferences nil.  On every fresh cursor [PeekN(n)] with [n <= 0]
    panics. *)
Theorem PeekN_nonpositive :
  forall (R : Type) (RD : Reader R) (c : RuneCursor R) (n : Z),
    n <= 0 -> n <= rabuflen c ->
    PeekN n c = match rabuf c with
                | [] => Panic NilDereference
                | h :: _ => Ok (val h, c)
                end /\
    forall (r : R) (nn : list Z),
      PeekN n (NewRuneCursor r nn) = Panic NilDereference.
Proof.
  intros R RD c n Hn Hl.
  assert (Hgen : forall c0 : RuneCursor R,
             n <= rabuflen c0 ->
             PeekN n c0 = match rabuf c0 with
                          | [] => Panic NilDereference
                          | h :: _ => Ok (val h, c0)
                          end).
  { intros c0 Hl0. unfold PeekN, fillRuneBuffer.
    replace (rabuflen c0 >=? n) with true by lia. cbn [bind isErr].
    replace (Z.to_nat (n - 1)) with 0%nat by lia.
    destruct (rabuf c0); reflexivity. }
  split; [apply Hgen; exact Hl|].
  intros r nn. rewrite Hgen; [reflexivity|]. cbn [rabuflen NewRuneCursor]. lia.
Qed.

Lemma PeekN_nonpositive_witness :
  0 <= 0 /\ 0 <= rabuflen (NewRuneCursor str_abc []) /\
  PeekN 0 (NewRuneCursor str_abc [])
  = match rabuf (NewRuneCursor str_abc []) with
    | [] => Panic NilDereference
    | h :: _ => Ok (val h, NewRuneCursor str_abc [])
    end /\
  forall (r : list byte) (nn : list Z),
    PeekN 0 (NewRuneCursor r nn) = Panic NilDereference.
Proof.
  split; [lia|]. split; [reflexivity|].
  apply (PeekN_nonpositive (list byte) bytesReader (NewRuneCursor str_abc []) 0);
    [lia | reflexivity].
Defined.

(** X15. [Cur] moves the position by the rune it returns.  When its
    fill fails it returns the sentinel and changes neither line, column
    nor [nread].  Otherwise it returns the rune of the head node, takes
    the head off the read-ahead list, applies the position rule for
    that rune to line and column, adds the width of the node to
    [nread] and takes one off [rabuflen]. *)
Theorem Cur_moves_by_its_rune :
  forall (R : Type) (RD : Reader R) (c : RuneCursor R) (v : Z)
         (c' : RuneCursor R),
    Cur c = Ok (v, c') ->
    (exists e : error,
        fillRuneBuffer 1 c = Ok (Some e, c') /\ v = utf8.RuneError /\
        LineNumber c' = LineNumber c /\ Column c' = Column c /\
        nread c' = nread c) \/
    (exists (c1 : RuneCursor R) (h : runebuf),
        fillRuneBuffer 1 c = Ok (None, c1) /\
        rabuf c1 = h :: rabuf c' /\ v = val h /\
        (LineNumber c', Column c') = advancePos (LineNumber c, Column c) v /\
        nread c' = nread c + width h /\
        rabuflen c' = rabuflen c1 - 1).
Proof.
  intros R RD c v c' E. unfold LineNumber, Column. apply Cur_inv in E.
  destruct E as (e & c1 & Ef & [(He & -> & ->)|(-> & h & t & Hq & -> & ->)]);
    pose proof (fillRuneBuffer_inv _ _ _ _ Ef) as (Hc & Hl & Hn & _).
  - left. destruct e as [e|]; [|congruence]. exists e.
    repeat split; assumption.
  - right. exists c1, h. split; [exact Ef|].
    unfold Advance. rewrite Hq. change (Z.to_nat 1) with 1%nat.
    cbn [advanceLoop snd rabuf set_rabuf lineno column nread rabuflen].
    split; [reflexivity|]. split; [reflexivity|].
    rewrite consumeNode_pos, Hl, Hc. split; [reflexivity|].
    destruct (consumeNode_frame h c1) as (_ & _ & _ & _ & Hr).
    split; [|exact Hr].
    unfold consumeNode. destruct (val h =? 10); cbn; lia.
Qed.

Lemma Cur_moves_by_its_rune_witness :
  exists c' : RuneCursor (list byte),
    Cur (NewRuneCursor str_a_nl_b []) = Ok (97, c') /\
    ((exists e : error,
         fillRuneBuffer 1 (NewRuneCursor str_a_nl_b []) = Ok (Some e, c') /\
         97 = utf8.RuneError /\
         LineNumber c' = 1 /\ Column c' = 1 /\ nread c' = 0) \/
     (exists (c1 : RuneCursor (list byte)) (h : runebuf),
         fillRuneBuffer 1 (NewRuneCursor str_a_nl_b []) = Ok (None, c1) /\
         rabuf c1 = h :: rabuf c' /\ 97 = val h /\
         (LineNumber c', Column c') = advancePos (1, 1) 97 /\
         nread c' = 0 + width h /\
         rabuflen c' = rabuflen c1 - 1)).
Proof.
  assert (E : exists c', Cur (NewRuneCursor str_a_nl_b []) = Ok (97, c')).
  { eexists. vm_compute. reflexivity. }
  destruct E as [c' E]. exists c'. split; [exact E|].
  exact (Cur_moves_by_its_rune (list byte) bytesReader _ 97 c' E).
Defined.

(** X16. An exhausted cursor keeps calling the source: on a collapsed
    buffer every fill that needs more runes than [rabuflen] counts calls
    [Read] once with an empty slice, takes over the state the source is
    left in, and fails with the error of that read or, if it gave none,
    with "failed to fill read buffer"; the read-ahead list and its count
    stay as they are. *)
Theorem exhausted_cursor_still_reads :
  forall (R : Type) (RD : Reader R) (c : RuneCursor R) (n : Z),
    collapsed c -> rabuflen c < n ->
    exists (e : error) (c' : RuneCursor R),
      fillRuneBuffer n c = Ok (Some e, c') /\
      in_ c' = snd (Read (in_ c) 0) /\
      (snd (fst (Read (in_ c) 0)) = Some e \/
       snd (fst (Read (in_ c) 0)) = None /\ e = FailedToFill) /\
      collapsed c' /\ rabuf c' = rabuf c /\ rabuflen c' = rabuflen c.
Proof.
  intros R RD c n Hcol Hn.
  destruct (fill_collapsed_read n c Hcol Hn)
    as (e & c' & Ef & Hin & He & Hb & Hl & Hp & Hq & Hql).
  exists e, c'. split; [exact Ef|]. split; [exact Hin|]. split; [exact He|].
  split; [|split; assumption].
  unfold collapsed. rewrite Hb, Hl, Hp. repeat split; lia.
Qed.

Lemma exhausted_cursor_still_reads_witness :
  exists c : RuneCursor (list (list byte)),
    Done (NewRuneCursor [[]; str_abc] []) = Ok (true, c) /\
    collapsed c /\ rabuflen c < 1 /\
    exists (e : error) (c' : RuneCursor (list (list byte))),
      fillRuneBuffer 1 c = Ok (Some e, c') /\
      in_ c' = snd (Read (in_ c) 0) /\
      (snd (fst (Read (in_ c) 0)) = Some e \/
       snd (fst (Read (in_ c) 0)) = None /\ e = FailedToFill) /\
      collapsed c' /\ rabuf c' = rabuf c /\ rabuflen c' = rabuflen c.
Proof.
  assert (E : exists c, Done (NewRuneCursor [[]; str_abc] []) = Ok (true, c) /\
                        collapsed c /\ rabuflen c < 1).
  { eexists. split; [vm_compute; reflexivity|].
    unfold collapsed. cbn. repeat split; lia. }
  destruct E as (c & E & Hcol & Hl). exists c.
  split; [exact E|]. split; [exact Hcol|]. split; [exact Hl|].
  exact (exhausted_cursor_still_reads (list (list byte)) chunkReader c 1 Hcol Hl).
Defined.

(** ** The position and the calls that consume *)

(** X17. Line and column are a function of the nodes the consuming calls
    walk over.  Whatever calls are made on a fresh cursor, the line
    number is 1 plus the number of line feeds among the runes walked
    over, and the column is 1 plus the number of these runes after the
    last such line feed.  The runes walked over are, in the order of the
    calls: the head a [Cur] pops, the nodes the loop of an [Advance]
    passes (once more for every later call that passes them again, when
    a failed [Advance] has left them queued), and the runes of a string
    a [Consume] has matched.  A fill, failed or not, leaves line and
    column alone; so do [Peek], [PeekN], [HasPrefix] and [Done], and so
    does every call that walks over no node. *)
Theorem position_follows_consumption :
  forall (R : Type) (RD : Reader R) (r : R) (nn : list Z) (ops : list op)
         (tr : list Z) (c : RuneCursor R),
    run ops (NewRuneCursor r nn) = Ok (tr, c) ->
    LineNumber c = 1 + newlines tr /\
    Column c = 1 + len (afterLastNewline tr) /\
    (forall (n : Z) (e : option error) (c' : RuneCursor R),
        fillRuneBuffer n c = Ok (e, c') ->
        LineNumber c' = LineNumber c /\ Column c' = Column c) /\
    (forall (o : op) (c' : RuneCursor R),
        isConsuming o = false -> exec o c = Ok c' ->
        LineNumber c' = LineNumber c /\ Column c' = Column c) /\
    (forall (o : op) (c' : RuneCursor R),
        consumedBy o c = [] -> exec o c = Ok c' ->
        LineNumber c' = LineNumber c /\ Column c' = Column c).
Proof.
  intros R RD r nn ops tr c E. unfold LineNumber, Column.
  apply run_position in E. cbn [lineno column NewRuneCursor] in E.
  rewrite positionAfter_fresh in E.
  split; [exact (f_equal fst E)|]. split; [exact (f_equal snd E)|].
  clear E. split; [|split].
  - intros n e c' Ef. apply fillRuneBuffer_inv in Ef.
    destruct Ef as (Hc' & Hl' & _). split; assumption.
  - intros o c' Ho Ee. apply exec_position in Ee.
    destruct o; try discriminate;
      (split; [exact (f_equal fst Ee) | exact (f_equal snd Ee)]).
  - intros o c' Ho Ee. apply exec_position in Ee. rewrite Ho in Ee.
    split; [exact (f_equal fst Ee) | exact (f_equal snd Ee)].
Qed.

Lemma position_follows_consumption_witness :
  exists (tr : list Z) (c : RuneCursor (list byte)),
    run [OpCur; OpPeek; OpCur; OpHasPrefix str_ab; OpCur]
        (NewRuneCursor str_a_nl_b []) = Ok (tr, c) /\
    tr = [97; 10; 98] /\
    LineNumber c = 1 + newlines tr /\
    Column c = 1 + len (afterLastNewline tr) /\
    (forall (n : Z) (e : option error) c',
        fillRuneBuffer n c = Ok (e, c') ->
        LineNumber c' = LineNumber c /\ Column c' = Column c) /\
    (forall (o : op) c',
        isConsuming o = false -> exec o c = Ok c' ->
        LineNumber c' = LineNumber c /\ Column c' = Column c) /\
    (forall (o : op) c',
        consumedBy o c = [] -> exec o c = Ok c' ->
        LineNumber c' = LineNumber c /\ Column c' = Column c).
Proof.
  eexists. eexists. split; [vm_compute; reflexivity|].
  split; [reflexivity|].
  eapply (position_follows_consumption _ _ str_a_nl_b []
           [OpCur; OpPeek; OpCur; OpHasPrefix str_ab; OpCur]).
  vm_compute. reflexivity.
Defined.

(** ** [HasPrefix] and [Consume] in the same state *)

(** X18. [HasPrefix(s)] and [Consume(s)] called in the same
    state return the same boolean, and neither changes line, column or
    byte count during the fill.  [HasPrefix] leaves the cursor as the
    fill [fillRuneBuffer(n)] left it, and so does a [Consume] that
    returns false: the walk removes nothing and commits nothing.  A
    [Consume] that returns true moves the head past exactly the matched
    nodes, whose runes are the runes of [s], and commits the line and
    column that the position rule gives for these runes; nothing else
    of the cursor changes. *)
Theorem HasPrefix_Consume_agree :
  forall (R : Type) (RD : Reader R) (c : RuneCursor R) (s : list byte),
    match fillRuneBuffer (utf8.RuneCountInString s) c with
    | Ok (_, c1) =>
      LineNumber c1 = LineNumber c /\ Column c1 = Column c /\
      nread c1 = nread c /\
      exists (b : bool) (c2 : RuneCursor R),
        HasPrefix s c = Ok (b, c1) /\ Consume s c = Ok (b, c2) /\
        if b then
          exists matched,
            rabuf c1 = matched ++ rabuf c2 /\
            map val matched = utf8.runes s /\
            (LineNumber c2, Column c2) =
              positionAfter (map val matched) (LineNumber c, Column c) /\
            c2 = set_lineno (LineNumber c2)
                   (set_column (Column c2) (set_rabuf (rabuf c2) c1))
        else c2 = c1
    | Panic p => HasPrefix s c = Panic p /\ Consume s c = Panic p
    | OutOfFuel => False
    end.
Proof.
  intros R RD c s. unfold HasPrefix, Consume, hasPrefix, LineNumber, Column.
  pose proof (fillRuneBuffer_total (utf8.RuneCountInString s) c) as Ht.
  destruct (fillRuneBuffer (utf8.RuneCountInString s) c)
    as [[e c1]| |] eqn:E; cbn [bind]; [|split; reflexivity|congruence].
  apply fillRuneBuffer_inv in E.
  destruct E as (Hc & Hl & Hn & _).
  repeat (split; [assumption|]).
  destruct e as [e|]; cbn [isErr].
  { exists false, c1. repeat split. }
  pose proof (prefixWalk_spec (rabuf c1) s 0 (column c1) (lineno c1) false c1
                ltac:(lia)) as Hh.
  pose proof (prefixWalk_spec (rabuf c1) s 0 (column c1) (lineno c1) true c1
                ltac:(lia)) as Hcs.
  pose proof (prefixWalk_bool (rabuf c1) s 0 (column c1) true c1) as Hb.
  destruct (prefixWalk (rabuf c1) s 0 (column c1) false c1) as [b1 ch].
  destruct (prefixWalk (rabuf c1) s 0 (column c1) true c1) as [b2 cc].
  cbn [fst] in Hb. subst b2.
  destruct b1.
  - destruct Hh as (m1 & r1 & _ & _ & ->).
    destruct Hcs as (m2 & r2 & Hq & Hm & ->).
    exists true. eexists. split; [reflexivity|]. split; [reflexivity|].
    exists m2. cbn. rewrite <- Hl, <- Hc.
    repeat split; try assumption.
    destruct (positionAfter (map val m2) (lineno c1, column c1)); reflexivity.
  - subst. exists false, c1. repeat split.
Qed.
